(** * ResearchAgent2: the research pipeline and its two memory stores

    A shallow embedding of the planner, the search agent, the summarizer,
    the knowledge graph (episodic memory) and the vector memory (semantic
    memory), with the properties the specification states about them.

    Conventions of the embedding:
    - a Python [str] is a [string]; a Python [int] is a [Z];
    - a Python [dict] with a fixed set of keys is a record, a key that may be
      absent is an [option] field; a [dict] used as a map is a [gmap];
    - a Python [float] is a binary64 float, [PrimFloat.float], with the
      operations of IEEE 754; the NumPy calls of the vector memory are
      inputs;
    - [datetime.now()] is an input of the call that reads it;
    - the search provider and the language model are inputs: what they
      answer is a parameter of the call that consults them. *)

From Stdlib Require Import ZArith List Lia Ascii Sorting.Sorted Sorting.Permutation.
From Stdlib Require Import Floats.
From stdpp Require Import gmap strings list pretty.

Local Open Scope string_scope.
Local Open Scope Z_scope.
Local Open Scope list_scope.

(** ** Python values and idioms shared by the modules *)

(** Free-form payloads: what [json.loads] returns and what the agents log. *)
#[local] Set Warnings "-register-all,-clear-no-such-hyp".
Inductive value : Type :=
| VNone
| VBool (b : bool)
| VInt (z : Z)
| VFloat (x : PrimFloat.float)
| VStr (s : string)
| VList (l : list value)
| VDict (d : list (string * value)).

(** Truth value of a [str]: only the empty string is false. *)
Definition truthy (s : string) : bool :=
  match s with
  | EmptyString => false
  | String _ _ => true
  end.

(** [x or default] on an optional integer: [None] and [0] are both false. *)
Definition int_or (x : option Z) (default : Z) : Z :=
  match x with
  | Some v => if Z.eqb v 0 then default else v
  | None => default
  end.

(** The slice [l[:k]]: a negative [k] counts from the end of the list. *)
Definition slice_to {A} (l : list A) (k : Z) : list A :=
  if Z.leb 0 k then firstn (Z.to_nat k) l
  else firstn (Z.to_nat (Z.of_nat (length l) + k)) l.

(** [enumerate(l)], counting from [i]. *)
Fixpoint enumerate_from {A} (i : nat) (l : list A) : list (nat * A) :=
  match l with
  | [] => []
  | x :: rest => (i, x) :: enumerate_from (S i) rest
  end.

Definition enumerate {A} (l : list A) : list (nat * A) := enumerate_from 0 l.

(** [dict.get(key, default)] on an optional field. *)
Definition get {A} (field : option A) (default : A) : A :=
  match field with
  | Some v => v
  | None => default
  end.

(** [str(n)] of an integer, as an f-string renders it. *)
Definition str_of_int (n : Z) : string := pretty n.

(** ** [list.sort(key=...)]: a stable sort

    Python's sort is stable: elements whose keys compare equal keep their
    order. A stable sort is determined by that property; insertion from the
    right, each element going before the first element it does not exceed,
    is the one used here. [leb] is the order on keys (for [reverse=True],
    the converse order, which Python also sorts stably). *)

Section StableSort.
Context {A K : Type} (key : A -> K) (leb : K -> K -> bool).

Fixpoint insert_by_key (x : A) (l : list A) : list A :=
  match l with
  | [] => [x]
  | y :: rest =>
      if leb (key x) (key y) then x :: y :: rest
      else y :: insert_by_key x rest
  end.

Definition sort_by_key (l : list A) : list A := foldr insert_by_key [] l.

Definition key_le (a b : A) : Prop := leb (key a) (key b) = true.

Lemma insert_by_key_perm x l : Permutation (insert_by_key x l) (x :: l).
Proof.
  induction l as [|y l IH]; cbn; [reflexivity|].
  destruct (leb (key x) (key y)); [reflexivity|].
  rewrite IH. apply perm_swap.
Qed.

Lemma sort_by_key_perm l : Permutation (sort_by_key l) l.
Proof.
  induction l as [|x l IH]; cbn; [reflexivity|].
  rewrite insert_by_key_perm. by constructor.
Qed.

Lemma sort_by_key_length l : length (sort_by_key l) = length l.
Proof. apply Permutation_length, sort_by_key_perm. Qed.

(** Elements that [p] selects and that are pairwise in order already are
    not reordered: this is stability, for [p] the elements of one key. *)
Lemma insert_by_key_filter (p : A -> bool) x l :
  (forall a b, p a = true -> p b = true -> leb (key a) (key b) = true) ->
  List.filter p (insert_by_key x l) = List.filter p (x :: l).
Proof.
  intros Hp. induction l as [|y l IH]; [reflexivity|].
  cbn [insert_by_key].
  destruct (leb (key x) (key y)) eqn:Hxy; [reflexivity|].
  cbn [List.filter] in *. rewrite IH.
  destruct (p x) eqn:Hx, (p y) eqn:Hy; try reflexivity.
  rewrite Hp in Hxy by assumption. discriminate.
Qed.

Lemma sort_by_key_filter (p : A -> bool) l :
  (forall a b, p a = true -> p b = true -> leb (key a) (key b) = true) ->
  List.filter p (sort_by_key l) = List.filter p l.
Proof.
  intros Hp. induction l as [|x l IH]; [reflexivity|].
  cbn [sort_by_key foldr]. fold (sort_by_key l).
  rewrite insert_by_key_filter by assumption.
  cbn [List.filter]. by rewrite IH.
Qed.

Section Ordered.
Hypothesis leb_total : forall a b, leb a b = true \/ leb b a = true.
Hypothesis leb_trans : forall a b c, leb a b = true -> leb b c = true -> leb a c = true.

Lemma insert_by_key_sorted x l :
  StronglySorted key_le l -> StronglySorted key_le (insert_by_key x l).
Proof.
  induction 1 as [|y l Hl IH Hy]; cbn.
  - repeat constructor.
  - destruct (leb (key x) (key y)) eqn:Hxy.
    + constructor; [by constructor|].
      constructor; [exact Hxy|].
      eapply Forall_impl; [exact Hy|]. intros z Hz. unfold key_le in *. eauto.
    + constructor; [exact IH|].
      apply (Permutation_Forall (Permutation_sym (insert_by_key_perm x l))).
      constructor; [|exact Hy].
      destruct (leb_total (key x) (key y)) as [H|H]; [congruence|exact H].
Qed.

Lemma sort_by_key_sorted l : StronglySorted key_le (sort_by_key l).
Proof.
  induction l as [|x l IH]; cbn; [constructor|].
  by apply insert_by_key_sorted.
Qed.

(** The elements whose key compares equal to [k]. *)
Definition same_key (k : K) (x : A) : bool := leb k (key x) && leb (key x) k.

Lemma same_key_refl x : same_key (key x) x = true.
Proof. unfold same_key. by destruct (leb_total (key x) (key x)) as [->| ->]. Qed.

Lemma filter_same_key_In l1 l2 x :
  (forall k, List.filter (same_key k) l1 = List.filter (same_key k) l2) ->
  In x l2 -> In x l1.
Proof.
  intros Hfilter Hin.
  assert (Hx : In x (List.filter (same_key (key x)) l2)).
  { apply List.filter_In. split; [exact Hin|apply same_key_refl]. }
  rewrite <- Hfilter in Hx. by apply List.filter_In in Hx as [Hx _].
Qed.

(** Two sorted lists that list the elements of each key in the same order
    are equal. *)
Lemma sorted_stable_unique l1 : forall l2,
  StronglySorted key_le l1 -> StronglySorted key_le l2 ->
  (forall k, List.filter (same_key k) l1 = List.filter (same_key k) l2) ->
  l1 = l2.
Proof.
  induction l1 as [|h1 t1 IH]; intros [|h2 t2] Hs1 Hs2 Hfilter.
  - reflexivity.
  - specialize (Hfilter (key h2)). cbn in Hfilter.
    rewrite same_key_refl in Hfilter. discriminate.
  - specialize (Hfilter (key h1)). cbn in Hfilter.
    rewrite same_key_refl in Hfilter. discriminate.
  - apply StronglySorted_inv in Hs1 as [Hs1 Hh1].
    apply StronglySorted_inv in Hs2 as [Hs2 Hh2].
    rewrite Forall_forall in Hh1, Hh2.
    assert (H12 : leb (key h1) (key h2) = true).
    { destruct (filter_same_key_In (h1 :: t1) (h2 :: t2) h2 Hfilter) as [<-|Hin].
      - by left.
      - by destruct (leb_total (key h1) (key h1)).
      - by apply Hh1, list_elem_of_In. }
    assert (H21 : leb (key h2) (key h1) = true).
    { destruct (filter_same_key_In (h2 :: t2) (h1 :: t1) h1) as [<-|Hin].
      - intros k. by rewrite Hfilter.
      - by left.
      - by destruct (leb_total (key h2) (key h2)).
      - by apply Hh2, list_elem_of_In. }
    assert (Hhead : h1 = h2).
    { pose proof (Hfilter (key h1)) as Hf. cbn [List.filter] in Hf.
      rewrite (same_key_refl h1) in Hf.
      unfold same_key at 2 in Hf. rewrite H12, H21 in Hf. cbn in Hf.
      by injection Hf. }
    subst h2. f_equal. apply IH; [done..|].
    intros k. specialize (Hfilter k). cbn [List.filter] in Hfilter.
    destruct (same_key k h1); [by injection Hfilter|exact Hfilter].
Qed.

(** So the result of a stable sort does not depend on the algorithm: a
    sorted list that keeps the order of the input inside every key is the
    list that [sort_by_key] returns. *)
Lemma sort_by_key_unique l sorted :
  StronglySorted key_le sorted ->
  (forall k, List.filter (same_key k) sorted = List.filter (same_key k) l) ->
  sorted = sort_by_key l.
Proof.
  intros Hsorted Hstable. apply sorted_stable_unique; [done|apply sort_by_key_sorted|].
  intros k. rewrite Hstable. symmetry. apply sort_by_key_filter.
  intros a b [_ Ha]%andb_prop [Hb _]%andb_prop. eauto.
Qed.
End Ordered.

End StableSort.

(** A sort reads the order on the keys of its input only. *)
Lemma insert_by_key_ext {A K} (key : A -> K) (leb1 leb2 : K -> K -> bool) x (l : list A) :
  (forall b, In b l -> leb1 (key x) (key b) = leb2 (key x) (key b)) ->
  insert_by_key key leb1 x l = insert_by_key key leb2 x l.
Proof.
  induction l as [|y l IH]; intros Hagree; cbn; [reflexivity|].
  rewrite (Hagree y) by by left.
  destruct (leb2 (key x) (key y)); [reflexivity|].
  f_equal. apply IH. intros b Hb. apply Hagree. by right.
Qed.

Lemma sort_by_key_ext {A K} (key : A -> K) (leb1 leb2 : K -> K -> bool) (l : list A) :
  (forall a b, In a l -> In b l -> leb1 (key a) (key b) = leb2 (key a) (key b)) ->
  sort_by_key key leb1 l = sort_by_key key leb2 l.
Proof.
  induction l as [|x l IH]; intros Hagree; [reflexivity|].
  change (insert_by_key key leb1 x (sort_by_key key leb1 l)
          = insert_by_key key leb2 x (sort_by_key key leb2 l)).
  rewrite IH by (intros a b Ha Hb; apply Hagree; by right).
  apply insert_by_key_ext. intros b Hb. apply Hagree; [by left|]. right.
  exact (Permutation_in _ (sort_by_key_perm key leb2 l) Hb).
Qed.

(** In a sorted list, an earlier position holds a key that is not larger. *)
Lemma StronglySorted_lookup {A} (R : A -> A -> Prop) (l : list A) :
  StronglySorted R l ->
  forall i j a b, l !! i = Some a -> l !! j = Some b -> (i < j)%nat -> R a b.
Proof.
  induction 1 as [|x l Hl IH Hx]; intros i j a b Hi Hj Hlt.
  - by rewrite lookup_nil in Hi.
  - destruct j as [|j]; [lia|]. cbn in Hj.
    destruct i as [|i]; cbn in Hi.
    + injection Hi as <-. rewrite Forall_forall in Hx.
      apply Hx. eapply list_elem_of_lookup_2, Hj.
    + eapply IH; eauto. lia.
Qed.

Lemma StronglySorted_prefix {A} (R : A -> A -> Prop) (l1 l2 : list A) :
  StronglySorted R (l1 ++ l2) -> StronglySorted R l1.
Proof.
  induction l1 as [|x l1 IH]; cbn; intros H; [constructor|].
  apply StronglySorted_inv in H as [H1 H2].
  constructor; [auto|]. apply Forall_app in H2. tauto.
Qed.

Lemma slice_to_prefix {A} (l : list A) (k : Z) : exists rest, l = slice_to l k ++ rest.
Proof.
  unfold slice_to. destruct (Z.leb 0 k); eexists; symmetry; apply firstn_skipn.
Qed.

(** The head of a sorted list is below all the elements of the input. *)
Lemma sort_by_key_head {A K} (key : A -> K) (leb : K -> K -> bool) (l : list A) h t :
  (forall a b, leb a b = true \/ leb b a = true) ->
  (forall a b c, leb a b = true -> leb b c = true -> leb a c = true) ->
  sort_by_key key leb l = h :: t ->
  Forall (fun x => leb (key h) (key x) = true) l.
Proof.
  intros Htotal Htrans Hsort.
  pose proof (sort_by_key_sorted key leb Htotal Htrans l) as Hsorted.
  pose proof (sort_by_key_perm key leb l) as Hperm.
  rewrite Hsort in Hsorted, Hperm.
  apply StronglySorted_inv in Hsorted as [_ Hhead].
  apply (Permutation_Forall Hperm). constructor; [|exact Hhead].
  by destruct (Htotal (key h) (key h)).
Qed.

(** The first element that a filter keeps, and what comes before it. *)
Lemma filter_first {A} (p : A -> bool) (l : list A) h t :
  List.filter p l = h :: t ->
  exists before after,
    l = before ++ h :: after /\ p h = true /\ Forall (fun x => p x = false) before.
Proof.
  induction l as [|x l IH]; cbn; [discriminate|].
  destruct (p x) eqn:Hx.
  - intros [= -> _]. exists [], l. auto.
  - intros (before & after & -> & Hh & Hbefore)%IH.
    exists (x :: before), after. auto.
Qed.

Lemma enumerate_from_lookup {A} (l : list A) : forall i j,
  enumerate_from i l !! j = (fun x => ((i + j)%nat, x)) <$> l !! j.
Proof.
  induction l as [|x l IH]; intros i [|j]; cbn; try reflexivity.
  - by rewrite Nat.add_0_r.
  - rewrite IH. by replace (S i + j)%nat with (i + S j)%nat by lia.
Qed.

Lemma enumerate_from_app {A} (l1 l2 : list A) : forall i,
  enumerate_from i (l1 ++ l2)
  = enumerate_from i l1 ++ enumerate_from (i + length l1) l2.
Proof.
  induction l1 as [|x l1 IH]; intros i; cbn.
  - by rewrite Nat.add_0_r.
  - rewrite IH. by replace (S i + length l1)%nat with (i + S (length l1))%nat by lia.
Qed.

(** ** Episodic memory: [storage/knowledge_graph.py] *)

Module KnowledgeGraph.

Record ActionEntry := mkActionEntry {
  entry_agent : string;
  entry_action : string;
  entry_timestamp : string;
  entry_session_id : option string;
  entry_data : value
}.

Record Session := mkSession {
  session_id : string;
  session_query : string;
  session_started : string;
  session_ended : option string;
  session_status : string;
  session_actions : list ActionEntry
}.

(** [last_seen] is absent between the creation of the entry and the
    assignment that follows it in [log_agent_action]. *)
Record AgentStats := mkAgentStats {
  first_seen : string;
  action_count : Z;
  last_seen : option string
}.

Record Metadata := mkMetadata {
  created : string;
  version : string;
  description : string
}.

(** [self.graph] *)
Record Graph := mkGraph {
  metadata : Metadata;
  sessions : list Session;
  agents : gmap string AgentStats;
  actions : list ActionEntry
}.

(** The object: [self.graph] and [self.current_session_id]. *)
Record t := mkKG {
  graph : Graph;
  current_session_id : option string
}.

(** A persisted document: any top-level key may be missing. *)
Record Document := mkDocument {
  doc_metadata : option Metadata;
  doc_sessions : option (list Session);
  doc_agents : option (gmap string AgentStats);
  doc_actions : option (list ActionEntry)
}.

(** [self.graph.update(loaded_graph)]: the keys of the document win. *)
Definition update (g : Graph) (d : Document) : Graph :=
  {| metadata := get (doc_metadata d) (metadata g);
     sessions := get (doc_sessions d) (sessions g);
     agents := get (doc_agents d) (agents g);
     actions := get (doc_actions d) (actions g) |}.

(** [__init__] followed by [_load]: [loaded] is [None] when the file is
    missing or cannot be read. *)
Definition init (now_iso : string) (loaded : option Document) : t :=
  let fresh :=
    {| metadata := {| created := now_iso;
                      version := "1.0.0";
                      description := "Autonomous Research Agent Knowledge Graph" |};
       sessions := [];
       agents := ∅;
       actions := [] |} in
  {| graph := match loaded with
              | Some d => update fresh d
              | None => fresh
              end;
     current_session_id := None |}.

(** The f-string of [start_session]. *)
Definition format_session_id (count : nat) (now_ts : Z) : string :=
  "session_" +:+ str_of_int (Z.of_nat count + 1) +:+ "_" +:+ str_of_int now_ts.

(** [start_session]: [now_ts] is [int(datetime.now().timestamp())],
    [now_iso] the second reading of the clock. *)
Definition start_session (kg : t) (query : string) (now_ts : Z) (now_iso : string)
  : string * t :=
  let g := graph kg in
  let sid := format_session_id (length (sessions g)) now_ts in
  let session :=
    {| session_id := sid;
       session_query := query;
       session_started := now_iso;
       session_ended := None;
       session_status := "active";
       session_actions := [] |} in
  (sid,
   {| graph := {| metadata := metadata g;
                  sessions := sessions g ++ [session];
                  agents := agents g;
                  actions := actions g |};
      current_session_id := Some sid |}).

(** The loops [for session in sessions: if session["id"] == sid: ...; break]:
    [f] is applied to the first session with that id. *)
Fixpoint update_first (sid : string) (f : Session -> Session) (l : list Session)
  : list Session :=
  match l with
  | [] => []
  | s :: rest =>
      if String.eqb (session_id s) sid then f s :: rest
      else s :: update_first sid f rest
  end.

Definition end_session (kg : t) (sid : string) (status : string) (now_iso : string) : t :=
  let g := graph kg in
  let close s :=
    {| session_id := session_id s;
       session_query := session_query s;
       session_started := session_started s;
       session_ended := Some now_iso;
       session_status := status;
       session_actions := session_actions s |} in
  {| graph := {| metadata := metadata g;
                 sessions := update_first sid close (sessions g);
                 agents := agents g;
                 actions := actions g |};
     current_session_id := current_session_id kg |}.

Definition append_action (e : ActionEntry) (s : Session) : Session :=
  {| session_id := session_id s;
     session_query := session_query s;
     session_started := session_started s;
     session_ended := session_ended s;
     session_status := session_status s;
     session_actions := session_actions s ++ [e] |}.

(** The three statements on [self.graph["agents"]]. *)
Definition touch_agent (agent : string) (timestamp : string)
    (m : gmap string AgentStats) : gmap string AgentStats :=
  let m1 :=
    match m !! agent with
    | None => <[agent := {| first_seen := timestamp; action_count := 0; last_seen := None |}]> m
    | Some _ => m
    end in
  let m2 :=
    alter (fun st => {| first_seen := first_seen st;
                        action_count := action_count st + 1;
                        last_seen := last_seen st |}) agent m1 in
  alter (fun st => {| first_seen := first_seen st;
                      action_count := action_count st;
                      last_seen := Some timestamp |}) agent m2.

(** [log_agent_action]: [timestamp = None] reads the clock ([now_iso]). *)
Definition log_agent_action (kg : t) (agent action : string) (data : value)
    (timestamp : option string) (now_iso : string) : t :=
  let g := graph kg in
  let timestamp := get timestamp now_iso in
  let action_entry :=
    {| entry_agent := agent;
       entry_action := action;
       entry_timestamp := timestamp;
       entry_session_id := current_session_id kg;
       entry_data := data |} in
  let sessions' :=
    match current_session_id kg with
    | Some sid =>
        if truthy sid then update_first sid (append_action action_entry) (sessions g)
        else sessions g
    | None => sessions g
    end in
  {| graph := {| metadata := metadata g;
                 sessions := sessions';
                 agents := touch_agent agent timestamp (agents g);
                 actions := actions g ++ [action_entry] |};
     current_session_id := current_session_id kg |}.

(** [get_session_history]: [None] stands for the empty dict. *)
Definition get_session_history (kg : t) (sid : option string) : option Session :=
  let target :=
    match sid with
    | Some s => if truthy s then Some s else current_session_id kg
    | None => current_session_id kg
    end in
  match target with
  | Some s => List.find (fun x => String.eqb (session_id x) s) (sessions (graph kg))
  | None => None
  end.

Record Stats := mkStats {
  total_agents : nat;
  total_actions : nat;
  total_sessions : nat;
  stats_agents : gmap string AgentStats
}.

Definition get_agent_stats (kg : t) : Stats :=
  {| total_agents := size (agents (graph kg));
     total_actions := length (actions (graph kg));
     total_sessions := length (sessions (graph kg));
     stats_agents := agents (graph kg) |}.

(** [_save] rewrites the file from [self.graph] after each of the calls
    above that change it, and catches its own failures: it has no effect on
    the object and is left out. *)

(** One call on the store, with the readings of the clock it makes. *)
Inductive call :=
| StartSession (query : string) (now_ts : Z) (now_iso : string)
| EndSession (sid status : string) (now_iso : string)
| LogAgentAction (agent action : string) (data : value)
    (timestamp : option string) (now_iso : string)
| GetSessionHistory (sid : option string)
| GetAgentStats.

(** A process lifetime of the store: the calls made on it, in order.
    The result lists the ids that the [start_session] calls returned. *)
Fixpoint run (kg : t) (calls : list call) : list string * t :=
  match calls with
  | [] => ([], kg)
  | c :: rest =>
      match c with
      | StartSession q ts iso =>
          let '(sid, kg1) := start_session kg q ts iso in
          let '(ids, kg2) := run kg1 rest in
          (sid :: ids, kg2)
      | EndSession sid st iso => run (end_session kg sid st iso) rest
      | LogAgentAction a act d ts iso => run (log_agent_action kg a act d ts iso) rest
      | GetSessionHistory _ => run kg rest
      | GetAgentStats => run kg rest
      end
  end.

(** *** Properties of the store *)

(** What [touch_agent] leaves under the name it was called with. *)
Lemma touch_agent_lookup agent timestamp (m : gmap string AgentStats) :
  touch_agent agent timestamp m !! agent =
  Some {| first_seen := match m !! agent with
                        | Some old => first_seen old
                        | None => timestamp
                        end;
          action_count := match m !! agent with
                          | Some old => action_count old + 1
                          | None => 1
                          end;
          last_seen := Some timestamp |}.
Proof.
  unfold touch_agent.
  destruct (m !! agent) as [old|] eqn:Hold.
  - rewrite !lookup_alter_eq, Hold. reflexivity.
  - rewrite !lookup_alter_eq, lookup_insert_eq. reflexivity.
Qed.

(** The entries of the other agents are not touched. *)
Lemma touch_agent_other agent other timestamp (m : gmap string AgentStats) :
  agent <> other -> touch_agent agent timestamp m !! other = m !! other.
Proof.
  intros Hne. unfold touch_agent.
  rewrite !lookup_alter_ne by done.
  destruct (m !! agent); [done|]. by rewrite lookup_insert_ne.
Qed.

(** C7: [log_agent_action] adds exactly 1 to the agent's [action_count]
    (counting from 0 for an agent not seen before), sets [last_seen] to the
    timestamp of the call (the given one, or the clock when none is given),
    and keeps the [first_seen] of an agent already present; [first_seen] is
    the timestamp of the call only for an agent's first action. *)
Theorem log_agent_action_updates_stats
    (kg : t) (agent action : string) (data : value)
    (timestamp : option string) (now_iso : string) :
  let ts := get timestamp now_iso in
  let before := agents (graph kg) !! agent in
  let after := agents (graph (log_agent_action kg agent action data timestamp now_iso)) !! agent in
  exists st,
    after = Some st /\
    action_count st = match before with
                      | Some old => action_count old + 1
                      | None => 1
                      end /\
    last_seen st = Some ts /\
    first_seen st = match before with
                    | Some old => first_seen old
                    | None => ts
                    end.
Proof.
  cbv zeta. unfold log_agent_action. cbn [graph agents].
  rewrite touch_agent_lookup.
  eexists. split; [reflexivity|]. cbn. auto.
Qed.

(** Two calls in a row for the same agent: the count goes up by two and
    [first_seen] is still the one the first call left. *)
Lemma log_agent_action_twice kg agent act1 act2 d1 d2 ts1 ts2 now1 now2 :
  let kg1 := log_agent_action kg agent act1 d1 ts1 now1 in
  let kg2 := log_agent_action kg1 agent act2 d2 ts2 now2 in
  exists st1 st2,
    agents (graph kg1) !! agent = Some st1 /\
    agents (graph kg2) !! agent = Some st2 /\
    first_seen st2 = first_seen st1 /\
    action_count st2 = action_count st1 + 1 /\
    last_seen st2 = Some (get ts2 now2).
Proof.
  cbv zeta. unfold log_agent_action. cbn [graph agents].
  rewrite !touch_agent_lookup.
  do 2 eexists. split; [reflexivity|]. split; [reflexivity|]. cbn. auto.
Qed.

(** Two actions of one agent on a new store. *)
Example log_agent_action_example :
  let kg0 := init "t0" None in
  let kg1 := log_agent_action kg0 "SearchAgent" "search_started" VNone (Some "t1") "now" in
  let kg2 := log_agent_action kg1 "SearchAgent" "search_completed" VNone None "t2" in
  agents (graph kg2) !! "SearchAgent"
  = Some {| first_seen := "t1"; action_count := 2; last_seen := Some "t2" |}.
Proof. vm_compute. reflexivity. Qed.

(** *** Session identifiers *)

Definition is_digit (c : ascii) : bool :=
  match c with
  | "0" | "1" | "2" | "3" | "4" | "5" | "6" | "7" | "8" | "9" => true
  | _ => false
  end%char.

Fixpoint all_digits (s : string) : bool :=
  match s with
  | EmptyString => true
  | String c rest => is_digit c && all_digits rest
  end.

Lemma pretty_N_char_digit x : is_digit (pretty_N_char x) = true.
Proof. unfold pretty_N_char. repeat case_match; reflexivity. Qed.

Lemma pretty_N_go_digits x : forall s,
  all_digits s = true -> all_digits (pretty_N_go x s) = true.
Proof.
  induction (N.lt_wf_0 x) as [x _ IH]; intros s Hs.
  destruct (decide (x = 0)%N) as [->|Hx].
  - by rewrite pretty_N_go_0.
  - rewrite pretty_N_go_step by lia.
    apply IH; [apply N.div_lt; lia|].
    cbn. by rewrite pretty_N_char_digit.
Qed.

(** The decimal rendering of a natural number holds digits only. *)
Lemma str_of_int_digits (n : Z) : 0 <= n -> all_digits (str_of_int n) = true.
Proof.
  intros Hn. unfold str_of_int, pretty, pretty_Z.
  destruct n as [|p|p]; [reflexivity| |lia].
  unfold pretty, pretty_positive, pretty, pretty_N.
  case_decide; [reflexivity|]. by apply pretty_N_go_digits.
Qed.

(** A run of digits followed by an underscore can be read back. *)
Lemma digits_then_underscore d1 : forall d2 r1 r2,
  all_digits d1 = true -> all_digits d2 = true ->
  d1 +:+ "_" +:+ r1 = d2 +:+ "_" +:+ r2 -> d1 = d2.
Proof.
  induction d1 as [|c1 d1 IH]; intros [|c2 d2] r1 r2 H1 H2 Heq; cbn in *.
  - reflexivity.
  - injection Heq as <- _. discriminate.
  - injection Heq as -> _. discriminate.
  - injection Heq as -> Heq.
    apply andb_prop in H1 as [_ H1]. apply andb_prop in H2 as [_ H2].
    f_equal. eauto.
Qed.

(** The sequence number can be read back from a session id. *)
Lemma format_session_id_count n1 n2 t1 t2 :
  format_session_id n1 t1 = format_session_id n2 t2 -> n1 = n2.
Proof.
  unfold format_session_id. intros Heq.
  apply (inj (String.app "session_")) in Heq.
  apply digits_then_underscore in Heq; try (apply str_of_int_digits; lia).
  apply (inj pretty) in Heq. lia.
Qed.

Lemma update_first_length sid f l : length (update_first sid f l) = length l.
Proof.
  induction l as [|s l IH]; cbn; [reflexivity|].
  destruct (String.eqb (session_id s) sid); cbn; congruence.
Qed.

(** Every id a run hands out carries a sequence number above the number of
    sessions the store held when the run began. *)
Lemma run_ids_above calls : forall kg sid,
  In sid (fst (run kg calls)) ->
  exists n ts, sid = format_session_id n ts /\
               (length (sessions (graph kg)) <= n)%nat.
Proof.
  induction calls as [|c calls IH]; intros kg sid Hin; cbn in Hin; [easy|].
  destruct c as [q ts iso|s st iso|a act d ts iso|s|].
  - destruct (run _ calls) as [ids kg2] eqn:Hrun. cbn in Hin.
    destruct Hin as [<-|Hin].
    + exists (length (sessions (graph kg))), ts. split; [reflexivity|lia].
    + specialize (IH _ sid ltac:(rewrite Hrun; exact Hin)).
      destruct IH as (n & ts' & -> & Hle). exists n, ts'. split; [reflexivity|].
      cbn in Hle. rewrite length_app in Hle. cbn in Hle. lia.
  - apply IH in Hin as (n & ts' & -> & Hle). exists n, ts'. split; [reflexivity|].
    cbn in Hle. by rewrite update_first_length in Hle.
  - apply IH in Hin as (n & ts' & -> & Hle). exists n, ts'. split; [reflexivity|].
    cbn in Hle. destruct (current_session_id kg) as [cur|]; [|done].
    destruct (truthy cur); [|done]. by rewrite update_first_length in Hle.
  - eauto.
  - eauto.
Qed.

(** C9: over a lifetime of the store, whatever the calls made on it and
    whatever the clock reads (the same second included), the ids that
    [start_session] returns are pairwise distinct: the sequence number in
    each id is the session count plus one, and the count only goes up. *)
Theorem start_session_ids_distinct (kg : t) (calls : list call) :
  NoDup (fst (run kg calls)).
Proof.
  revert kg. induction calls as [|c calls IH]; intros kg; cbn.
  - constructor.
  - destruct c as [q ts iso|s st iso|a act d ts iso|s|]; try apply IH.
    specialize (IH (snd (start_session kg q ts iso))).
    pose proof (run_ids_above calls (snd (start_session kg q ts iso))) as Habove.
    cbn in IH, Habove.
    destruct (run _ calls) as [ids kg2]. cbn in *.
    apply NoDup_cons; split; [|exact IH].
    intros Hin%list_elem_of_In. apply Habove in Hin as (n & ts' & Heq & Hle).
    apply format_session_id_count in Heq.
    rewrite length_app in Hle. cbn in Hle. lia.
Qed.

(** Two [start_session] calls at the same clock reading, in a row. *)
Example start_session_same_second :
  fst (run (init "2024-01-01T00:00:00" None)
           [StartSession "a" 1704067200 "2024-01-01T00:00:00";
            StartSession "b" 1704067200 "2024-01-01T00:00:00"])
  = ["session_1_1704067200"; "session_2_1704067200"].
Proof. vm_compute. reflexivity. Qed.

(** *** Sessions: lookup by id, lifecycle *)

(** What [_save] writes: the whole of [self.graph]. *)
Definition document_of (g : Graph) : Document :=
  {| doc_metadata := Some (metadata g);
     doc_sessions := Some (sessions g);
     doc_agents := Some (agents g);
     doc_actions := Some (actions g) |}.

(** The sessions of the store carry the ids that [start_session] gives
    them: the session at position [i] has sequence number [i + 1]. A new
    store has this property and every call keeps it. *)
Definition numbered (kg : t) : Prop :=
  forall i s, sessions (graph kg) !! i = Some s ->
              exists ts, session_id s = format_session_id i ts.

Lemma update_first_ids sid f l :
  (forall s, session_id (f s) = session_id s) ->
  map session_id (update_first sid f l) = map session_id l.
Proof.
  intros Hf. induction l as [|s l IH]; [reflexivity|]. cbn.
  destruct (String.eqb (session_id s) sid); cbn; [by rewrite Hf|by rewrite IH].
Qed.

Lemma update_first_absent sid f l :
  Forall (fun s => session_id s <> sid) l -> update_first sid f l = l.
Proof.
  induction 1 as [|s l Hs Hl IH]; [reflexivity|]. cbn.
  destruct (String.eqb_spec (session_id s) sid); [done|by rewrite IH].
Qed.

Lemma find_update_first sid f l :
  (forall s, session_id (f s) = session_id s) ->
  List.find (fun x => String.eqb (session_id x) sid) (update_first sid f l)
  = f <$> List.find (fun x => String.eqb (session_id x) sid) l.
Proof.
  intros Hf. induction l as [|s l IH]; [reflexivity|]. cbn.
  destruct (String.eqb (session_id s) sid) eqn:Hs; cbn.
  - by rewrite Hf, Hs.
  - by rewrite Hs.
Qed.

Lemma find_absent sid l :
  Forall (fun s => session_id s <> sid) l ->
  List.find (fun x => String.eqb (session_id x) sid) l = None.
Proof.
  induction 1 as [|s l Hs Hl IH]; [reflexivity|]. cbn.
  by destruct (String.eqb_spec (session_id s) sid).
Qed.

Lemma find_app_new sid l s :
  Forall (fun x => session_id x <> sid) l -> session_id s = sid ->
  List.find (fun x => String.eqb (session_id x) sid) (l ++ [s]) = Some s.
Proof.
  intros Hl Hs. induction Hl as [|x l Hx Hl IH]; cbn.
  - by rewrite Hs, String.eqb_refl.
  - by destruct (String.eqb_spec (session_id x) sid).
Qed.

Lemma update_first_app_new sid f l s :
  Forall (fun x => session_id x <> sid) l -> session_id s = sid ->
  update_first sid f (l ++ [s]) = l ++ [f s].
Proof.
  intros Hl Hs. induction Hl as [|x l Hx Hl IH]; cbn.
  - by rewrite Hs, String.eqb_refl.
  - destruct (String.eqb_spec (session_id x) sid); [done|by rewrite IH].
Qed.

(** In a numbered store no session has the id that the next
    [start_session] will return. *)
Lemma numbered_fresh kg ts :
  numbered kg ->
  Forall (fun s => session_id s <> format_session_id (length (sessions (graph kg))) ts)
         (sessions (graph kg)).
Proof.
  intros Hn. apply Forall_lookup. intros i s Hi Heq.
  destruct (Hn i s Hi) as [ts' Hid]. rewrite Hid in Heq.
  apply format_session_id_count in Heq. apply lookup_lt_Some in Hi. lia.
Qed.

Lemma numbered_ids kg l :
  map session_id l = map session_id (sessions (graph kg)) ->
  numbered kg ->
  forall i s, l !! i = Some s -> exists ts, session_id s = format_session_id i ts.
Proof.
  intros Hids Hn i s Hi.
  assert (Hid : map session_id l !! i = Some (session_id s))
    by (by rewrite list_lookup_fmap, Hi).
  rewrite Hids, list_lookup_fmap in Hid.
  destruct (sessions (graph kg) !! i) as [s'|] eqn:Hs'; [|discriminate].
  injection Hid as Hid. destruct (Hn i s' Hs') as [ts Hts].
  exists ts. congruence.
Qed.

Lemma numbered_start_session kg q ts iso :
  numbered kg -> numbered (snd (start_session kg q ts iso)).
Proof.
  intros Hn i s Hi. cbn in Hi.
  destruct (decide (i < length (sessions (graph kg)))%nat) as [Hlt|Hge].
  - rewrite lookup_app_l in Hi by exact Hlt. eauto.
  - rewrite lookup_app_r in Hi by lia.
    destruct (i - length (sessions (graph kg)))%nat eqn:Hd; [|by destruct n].
    injection Hi as <-. cbn. exists ts. f_equal. lia.
Qed.

Lemma numbered_end_session kg sid status iso :
  numbered kg -> numbered (end_session kg sid status iso).
Proof.
  intros Hn. unfold numbered. cbn. eapply numbered_ids; [|exact Hn].
  by apply update_first_ids.
Qed.

Lemma numbered_log_agent_action kg agent action data timestamp iso :
  numbered kg -> numbered (log_agent_action kg agent action data timestamp iso).
Proof.
  intros Hn. unfold numbered. cbn. eapply numbered_ids; [|exact Hn].
  destruct (current_session_id kg) as [cur|]; [|done].
  destruct (truthy cur); [|done]. by apply update_first_ids.
Qed.

Lemma numbered_run calls : forall kg, numbered kg -> numbered (snd (run kg calls)).
Proof.
  induction calls as [|c calls IH]; intros kg Hn; [exact Hn|].
  destruct c as [q ts iso|s st iso|a act d ts iso|s|]; cbn.
  - specialize (IH _ (numbered_start_session kg q ts iso Hn)). cbn in IH.
    by destruct (run _ calls).
  - by apply IH, numbered_end_session.
  - by apply IH, numbered_log_agent_action.
  - by apply IH.
  - by apply IH.
Qed.

Lemma numbered_init now_iso : numbered (init now_iso None).
Proof. intros i s Hi. cbn in Hi. by rewrite lookup_nil in Hi. Qed.

Lemma format_session_id_truthy n ts : truthy (format_session_id n ts) = true.
Proof. reflexivity. Qed.

(** X1: the life of a session. In a numbered store, [start_session] makes
    the new session the one that [get_session_history()] returns, active
    and without actions; an action logged next is appended to it, with the
    id of the session in its entry; [end_session] on its id then sets its
    status and end time and keeps its query and actions. *)
Theorem session_lifecycle
    (kg : t) (query : string) (now_ts : Z) (now1 : string)
    (agent action : string) (data : value) (timestamp : option string) (now2 : string)
    (status now3 : string) :
  numbered kg ->
  let sid := fst (start_session kg query now_ts now1) in
  let kg1 := snd (start_session kg query now_ts now1) in
  let kg2 := log_agent_action kg1 agent action data timestamp now2 in
  let kg3 := end_session kg2 sid status now3 in
  let entry := {| entry_agent := agent; entry_action := action;
                  entry_timestamp := get timestamp now2;
                  entry_session_id := Some sid; entry_data := data |} in
  get_session_history kg1 None
  = Some {| session_id := sid; session_query := query; session_started := now1;
            session_ended := None; session_status := "active";
            session_actions := [] |} /\
  get_session_history kg2 None
  = Some {| session_id := sid; session_query := query; session_started := now1;
            session_ended := None; session_status := "active";
            session_actions := [entry] |} /\
  get_session_history kg3 (Some sid)
  = Some {| session_id := sid; session_query := query; session_started := now1;
            session_ended := Some now3; session_status := status;
            session_actions := [entry] |} /\
  actions (graph kg3) = actions (graph kg) ++ [entry].
Proof.
  intros Hn. cbv zeta.
  pose proof (numbered_fresh kg now_ts Hn) as Hfresh.
  set (sid := format_session_id (length (sessions (graph kg))) now_ts) in *.
  unfold get_session_history, log_agent_action, end_session.
  cbn [start_session fst snd graph sessions current_session_id actions].
  fold sid. rewrite (format_session_id_truthy _ now_ts : truthy sid = true).
  rewrite (update_first_app_new sid _ (sessions (graph kg)) _ Hfresh)
    by reflexivity.
  rewrite (update_first_app_new sid _ (sessions (graph kg)) _ Hfresh)
    by reflexivity.
  rewrite !(find_app_new sid (sessions (graph kg)) _ Hfresh) by reflexivity.
  auto.
Qed.

(** A new store is numbered. *)
Lemma session_lifecycle_witness :
  get_session_history
    (snd (start_session (init "t0" None) "rust" 1704067200 "t1")) None
  = Some {| session_id := "session_1_1704067200"; session_query := "rust";
            session_started := "t1"; session_ended := None;
            session_status := "active"; session_actions := [] |}.
Proof.
  apply (session_lifecycle (init "t0" None) "rust" 1704067200 "t1"
           "PlannerAgent" "planning_started" VNone None "t2" "completed" "t3").
  intros i s Hi. cbn in Hi. by rewrite lookup_nil in Hi.
Defined.

(** X2: in a numbered store, and so in every store reached from a new one
    by any calls, the ids of the stored sessions are pairwise distinct: a
    lookup by id finds one session at most. *)
Theorem stored_session_ids_distinct (kg : t) (calls : list call) :
  numbered kg ->
  NoDup (map session_id (sessions (graph (snd (run kg calls))))).
Proof.
  intros Hn. apply numbered_run with (calls := calls) in Hn.
  set (kg' := snd (run kg calls)) in *.
  apply NoDup_alt. intros i j sid Hi Hj.
  rewrite list_lookup_fmap in Hi, Hj.
  destruct (sessions (graph kg') !! i) as [si|] eqn:Hsi; [|discriminate].
  destruct (sessions (graph kg') !! j) as [sj|] eqn:Hsj; [|discriminate].
  injection Hi as Hi. injection Hj as Hj.
  destruct (Hn i si Hsi) as [ti Hti]. destruct (Hn j sj Hsj) as [tj Htj].
  apply (format_session_id_count i j ti tj). congruence.
Qed.

Lemma stored_session_ids_distinct_witness :
  NoDup (map session_id (sessions (graph (snd (run (init "t0" None)
    [StartSession "a" 5 "t1"; EndSession "session_1_5" "completed" "t2";
     StartSession "b" 5 "t3"]))))).
Proof.
  apply (stored_session_ids_distinct (init "t0" None)).
  intros i s Hi. cbn in Hi. by rewrite lookup_nil in Hi.
Defined.

(** *** Statistics and the session logs *)

(** The sum of the action counts of the agents. *)
Definition count_total (m : gmap string AgentStats) : Z :=
  map_fold (fun _ st total => action_count st + total) 0 m.

Lemma touch_agent_insert agent timestamp (m : gmap string AgentStats) :
  touch_agent agent timestamp m
  = <[agent := {| first_seen := match m !! agent with
                                | Some old => first_seen old
                                | None => timestamp
                                end;
                  action_count := match m !! agent with
                                  | Some old => action_count old + 1
                                  | None => 1
                                  end;
                  last_seen := Some timestamp |}]> m.
Proof.
  apply map_eq. intros other.
  destruct (decide (agent = other)) as [<-|Hne].
  - by rewrite touch_agent_lookup, lookup_insert_eq.
  - by rewrite touch_agent_other, lookup_insert_ne.
Qed.

Lemma count_total_insert agent st (m : gmap string AgentStats) :
  count_total (<[agent := st]> m)
  = action_count st + count_total m
    - match m !! agent with Some old => action_count old | None => 0 end.
Proof.
  unfold count_total.
  destruct (m !! agent) as [old|] eqn:Hold.
  - rewrite <- (insert_delete_eq m).
    rewrite map_fold_insert_L; [|intros; lia|apply lookup_delete_eq].
    rewrite (map_fold_delete_L _ _ agent old m); [lia|intros; lia|exact Hold].
  - rewrite map_fold_insert_L; [lia|intros; lia|exact Hold].
Qed.

Lemma count_total_touch agent timestamp (m : gmap string AgentStats) :
  count_total (touch_agent agent timestamp m) = count_total m + 1.
Proof.
  rewrite touch_agent_insert, count_total_insert.
  destruct (m !! agent); cbn; lia.
Qed.

(** The counts of the agents add up to the length of the action log. *)
Definition counted (kg : t) : Prop :=
  count_total (agents (graph kg)) = Z.of_nat (length (actions (graph kg))).

Lemma counted_run calls : forall kg, counted kg -> counted (snd (run kg calls)).
Proof.
  induction calls as [|c calls IH]; intros kg Hc; [exact Hc|].
  destruct c as [q ts iso|s st iso|a act d ts iso|s|]; cbn.
  - specialize (IH (snd (start_session kg q ts iso)) Hc). cbn in IH.
    by destruct (run _ calls).
  - by apply IH.
  - apply IH. unfold counted in *. cbn.
    rewrite count_total_touch, length_app, Hc. cbn. lia.
  - by apply IH.
  - by apply IH.
Qed.

(** X3: the statistics add up. From a store in which the action counts of
    the agents sum to the number of logged actions (a new store, for one),
    after any calls [get_agent_stats] reports a [total_actions] equal to the
    sum of the [action_count] of all agents. *)
Theorem agent_counts_add_up (kg : t) (calls : list call) :
  counted kg ->
  let kg' := snd (run kg calls) in
  Z.of_nat (total_actions (get_agent_stats kg'))
  = count_total (stats_agents (get_agent_stats kg')).
Proof. intros Hc. cbv zeta. symmetry. by apply counted_run. Qed.

Lemma agent_counts_add_up_witness :
  Z.of_nat (total_actions (get_agent_stats (snd (run (init "t0" None)
    [LogAgentAction "SearchAgent" "search_started" VNone None "t1";
     StartSession "q" 7 "t2";
     LogAgentAction "PlannerAgent" "planning_started" VNone None "t3";
     LogAgentAction "SearchAgent" "search_completed" VNone None "t4"]))))
  = count_total (stats_agents (get_agent_stats (snd (run (init "t0" None)
    [LogAgentAction "SearchAgent" "search_started" VNone None "t1";
     StartSession "q" 7 "t2";
     LogAgentAction "PlannerAgent" "planning_started" VNone None "t3";
     LogAgentAction "SearchAgent" "search_completed" VNone None "t4"])))).
Proof.
  apply (agent_counts_add_up (init "t0" None)). reflexivity.
Defined.

(** Every entry in the action list of a session carries the id of that
    session and is in the global action log. *)
Definition session_logs_ok (kg : t) : Prop :=
  Forall (fun s =>
            Forall (fun e => entry_session_id e = Some (session_id s) /\
                             In e (actions (graph kg)))
                   (session_actions s))
         (sessions (graph kg)).

Lemma update_first_Forall (P : Session -> Prop) sid f l :
  (forall s, P s -> session_id s = sid -> P (f s)) ->
  Forall P l -> Forall P (update_first sid f l).
Proof.
  intros Hf. induction 1 as [|s l Hs Hl IH]; cbn; [constructor|].
  destruct (String.eqb_spec (session_id s) sid); constructor; auto.
Qed.

Lemma session_logs_ok_step kg c : session_logs_ok kg -> session_logs_ok (snd (run kg [c])).
Proof.
  unfold session_logs_ok. intros Hok.
  destruct c as [q ts iso|sid st iso|a act d ts iso|s|]; cbn; try exact Hok.
  - apply Forall_app. split; [exact Hok|]. repeat constructor.
  - apply update_first_Forall; [|exact Hok]. by intros s Hs _.
  - set (e := {| entry_agent := a; entry_action := act;
                 entry_timestamp := get ts iso;
                 entry_session_id := current_session_id kg; entry_data := d |}).
    assert (Hmono : Forall (fun s =>
               Forall (fun e' => entry_session_id e' = Some (session_id s) /\
                                 In e' (actions (graph kg) ++ [e]))
                      (session_actions s)) (sessions (graph kg))).
    { eapply Forall_impl; [exact Hok|]. intros s Hs. cbn in Hs.
      eapply Forall_impl; [exact Hs|]. intros e' [H1 H2].
      split; [exact H1|]. apply in_or_app. by left. }
    destruct (current_session_id kg) as [cur|] eqn:Hcur; [|exact Hmono].
    destruct (truthy cur); [|exact Hmono].
    apply update_first_Forall; [|exact Hmono].
    intros s Hs Hid. cbn. apply Forall_app. split; [exact Hs|].
    constructor; [|constructor]. split.
    + cbn. by rewrite Hid.
    + apply in_or_app. right. by left.
Qed.

Lemma run_app_one kg c calls :
  snd (run kg (c :: calls)) = snd (run (snd (run kg [c])) calls).
Proof.
  destruct c as [q ts iso|sid st iso|a act d ts iso|s|]; cbn; try reflexivity.
  by destruct (run _ calls).
Qed.

Lemma session_logs_ok_run calls : forall kg,
  session_logs_ok kg -> session_logs_ok (snd (run kg calls)).
Proof.
  induction calls as [|c calls IH]; intros kg Hok; [exact Hok|].
  rewrite run_app_one. by apply IH, session_logs_ok_step.
Qed.

(** X4: the session logs are part of the global log. From a store where
    this holds (a new store, for one), after any calls every entry in the
    action list of a session has that session's id as its [session_id] and is
    an entry of the global action list. *)
Theorem session_logs_in_global_log (kg : t) (calls : list call) :
  session_logs_ok kg ->
  forall s e,
    In s (sessions (graph (snd (run kg calls)))) ->
    In e (session_actions s) ->
    entry_session_id e = Some (session_id s) /\
    In e (actions (graph (snd (run kg calls)))).
Proof.
  intros Hok s e Hs He.
  apply session_logs_ok_run with (calls := calls) in Hok.
  unfold session_logs_ok in Hok. rewrite Forall_forall in Hok.
  specialize (Hok s ltac:(by apply list_elem_of_In)).
  rewrite Forall_forall in Hok. apply Hok. by apply list_elem_of_In.
Qed.

Lemma session_logs_in_global_log_witness :
  let calls := [StartSession "q" 7 "t1";
                LogAgentAction "PlannerAgent" "planning_started" VNone None "t2"] in
  let e := {| entry_agent := "PlannerAgent"; entry_action := "planning_started";
              entry_timestamp := "t2"; entry_session_id := Some "session_1_7";
              entry_data := VNone |} in
  In e (actions (graph (snd (run (init "t0" None) calls)))).
Proof.
  cbv zeta.
  apply (session_logs_in_global_log (init "t0" None)
           [StartSession "q" 7 "t1";
            LogAgentAction "PlannerAgent" "planning_started" VNone None "t2"]
           ltac:(constructor)
           {| session_id := "session_1_7"; session_query := "q";
              session_started := "t1"; session_ended := None;
              session_status := "active";
              session_actions :=
                [{| entry_agent := "PlannerAgent"; entry_action := "planning_started";
                    entry_timestamp := "t2"; entry_session_id := Some "session_1_7";
                    entry_data := VNone |}] |}).
  - left. reflexivity.
  - left. reflexivity.
Defined.

(** *** Restart and unknown ids *)

(** X5: a restart keeps the graph and forgets the current session. A store
    constructed on the document that [_save] wrote has the same graph, but no
    current session: an action logged next is added to the global log with no
    session id, and no session's action list changes. A store constructed
    without a readable file is empty. *)
Theorem restart_forgets_current_session
    (kg : t) (now_iso agent action : string) (data : value)
    (timestamp : option string) (now2 : string) :
  let restarted := init now_iso (Some (document_of (graph kg))) in
  let after := log_agent_action restarted agent action data timestamp now2 in
  graph restarted = graph kg /\
  current_session_id restarted = None /\
  sessions (graph after) = sessions (graph kg) /\
  actions (graph after)
  = actions (graph kg)
    ++ [{| entry_agent := agent; entry_action := action;
           entry_timestamp := get timestamp now2;
           entry_session_id := None; entry_data := data |}] /\
  sessions (graph (init now_iso None)) = [] /\
  actions (graph (init now_iso None)) = [] /\
  agents (graph (init now_iso None)) = ∅.
Proof. cbv zeta. destruct kg as [[m s a l] cur]. cbn. done. Qed.

(** X6: an id that no session has. [end_session] on it changes nothing and
    raises nothing, and [get_session_history] on it returns the empty
    result. *)
Theorem unknown_session_id (kg : t) (sid status now_iso : string) :
  Forall (fun s => session_id s <> sid) (sessions (graph kg)) ->
  end_session kg sid status now_iso = kg /\
  (sid <> "" -> get_session_history kg (Some sid) = None).
Proof.
  intros Habsent. split.
  - unfold end_session. rewrite update_first_absent by exact Habsent.
    by destruct kg as [[m s a l] cur].
  - intros Hne. unfold get_session_history.
    destruct sid; [done|]. cbn [truthy]. by apply find_absent.
Qed.

Lemma unknown_session_id_witness :
  end_session (snd (start_session (init "t0" None) "q" 7 "t1"))
              "session_9_9" "completed" "t2"
  = snd (start_session (init "t0" None) "q" 7 "t1").
Proof.
  apply (unknown_session_id (snd (start_session (init "t0" None) "q" 7 "t1"))
           "session_9_9" "completed" "t2").
  repeat constructor. discriminate.
Defined.

End KnowledgeGraph.

(** ** The planner: [agents/planner.py] *)

Module Planner.

Record Subtask := mkSubtask {
  subtask_id : Z;
  subtask_type : string;
  subtask_description : string;
  subtask_query : option string;
  subtask_priority : string;
  subtask_depends_on : option (list Z)
}.

(** [self.name] *)
Definition name : string := "PlannerAgent".

Definition _decompose_query (query : string) : list Subtask :=
  [ {| subtask_id := 1;
       subtask_type := "search";
       subtask_description := "Search for current information about: " +:+ query;
       subtask_query := Some query;
       subtask_priority := "high";
       subtask_depends_on := None |};
    {| subtask_id := 2;
       subtask_type := "search";
       subtask_description := "Find recent trends and developments related to: " +:+ query;
       subtask_query := Some ("recent trends " +:+ query);
       subtask_priority := "medium";
       subtask_depends_on := None |};
    {| subtask_id := 3;
       subtask_type := "search";
       subtask_description := "Gather expert opinions and analysis on: " +:+ query;
       subtask_query := Some ("expert analysis " +:+ query);
       subtask_priority := "medium";
       subtask_depends_on := None |};
    {| subtask_id := 4;
       subtask_type := "summarize";
       subtask_description := "Synthesize all gathered information";
       subtask_query := None;
       subtask_priority := "high";
       subtask_depends_on := Some [1; 2; 3] |};
    {| subtask_id := 5;
       subtask_type := "write";
       subtask_description := "Generate comprehensive research report";
       subtask_query := None;
       subtask_priority := "high";
       subtask_depends_on := Some [4] |} ].

(** A subtask as the dict that is logged. *)
Definition subtask_value (s : Subtask) : value :=
  VDict ([("id", VInt (subtask_id s));
          ("type", VStr (subtask_type s));
          ("description", VStr (subtask_description s))]
         ++ match subtask_query s with
            | Some q => [("query", VStr q)]
            | None => []
            end
         ++ [("priority", VStr (subtask_priority s))]
         ++ match subtask_depends_on s with
            | Some d => [("depends_on", VList (map VInt d))]
            | None => []
            end).

(** [_log_action]: nothing happens without a knowledge graph. *)
Definition _log_action (kg : option KnowledgeGraph.t) (action : string) (data : value)
    (now_iso : string) : option KnowledgeGraph.t :=
  match kg with
  | Some g => Some (KnowledgeGraph.log_agent_action g name action data (Some now_iso) now_iso)
  | None => None
  end.

(** [plan]: the two log entries read the clock once each. *)
Definition plan (kg : option KnowledgeGraph.t) (query : string) (now1 now2 : string)
  : list Subtask * option KnowledgeGraph.t :=
  let kg1 := _log_action kg "planning_started" (VDict [("query", VStr query)]) now1 in
  let subtasks := _decompose_query query in
  let kg2 :=
    _log_action kg1 "planning_completed"
      (VDict [("query", VStr query);
              ("subtask_count", VInt (Z.of_nat (length subtasks)));
              ("subtasks", VList (map subtask_value subtasks))]) now2 in
  (subtasks, kg2).

(** C3: for every query, whatever the knowledge graph attached and
    whatever the clock reads, [plan] returns exactly five subtasks, with
    ids 1 to 5 in order: three searches (the query itself, its
    "recent trends" variant, its "expert analysis" variant), the summarize
    subtask 4 that depends on [1, 2, 3] and the write subtask 5 that depends
    on [4]; two calls with the same query return the same list. *)
Theorem plan_five_subtasks (kg : option KnowledgeGraph.t) (query now1 now2 : string) :
  let subtasks := fst (plan kg query now1 now2) in
  length subtasks = 5%nat /\
  map subtask_id subtasks = [1; 2; 3; 4; 5] /\
  map subtask_type subtasks = ["search"; "search"; "search"; "summarize"; "write"] /\
  map subtask_query subtasks =
    [Some query; Some ("recent trends " +:+ query);
     Some ("expert analysis " +:+ query); None; None] /\
  map subtask_depends_on subtasks = [None; None; None; Some [1; 2; 3]; Some [4]] /\
  (forall kg' now1' now2', fst (plan kg' query now1' now2') = subtasks).
Proof. cbv zeta. unfold plan. cbn [fst]. repeat split. Qed.

(** The plan for a concrete query, with its episodic log. *)
Example plan_logs_two_actions :
  let kg := KnowledgeGraph.init "t0" None in
  option_map (fun g => KnowledgeGraph.total_actions (KnowledgeGraph.get_agent_stats g))
             (snd (plan (Some kg) "rust" "t1" "t2")) = Some 2%nat.
Proof. reflexivity. Qed.

End Planner.

(** ** Search results

    The dict that [SearchAgent] builds and [SummarizerAgent] reads: every key
    is read with [dict.get], so every key may be absent. *)

Record SearchResult := mkSearchResult {
  result_rank : option Z;
  result_title : option string;
  result_snippet : option string;
  result_url : option string;
  result_source : option string;
  result_date : option string;
  result_search_type : option string
}.

(** ** The search agent: [agents/search.py] *)

Module Search.

(** A record of the search provider: [title], [body], [href] for a web
    hit, [title], [body], [url], [date] for a news hit. *)
Record ProviderRecord := mkProviderRecord {
  provider_title : option string;
  provider_body : option string;
  provider_href : option string;
  provider_url : option string;
  provider_date : option string
}.

(** [result.get("url", "")] *)
Definition url_of (result : SearchResult) : string := get (result_url result) "".

(** [x.get("search_type") == "news"] *)
Definition is_news (x : SearchResult) : bool :=
  bool_decide (result_search_type x = Some "news").

(** The key of the final sort. *)
Definition sort_key (x : SearchResult) : Z * Z :=
  (if is_news x then -1 else 0, get (result_rank x) 999).

(** Comparison of tuples: lexicographic. *)
Definition tuple_leb (a b : Z * Z) : bool :=
  (a.1 <? b.1) || ((a.1 =? b.1) && (a.2 <=? b.2)).

(** The loop over [all_results] with its [seen_urls] set. *)
Fixpoint unique_by_url (seen_urls : gset string) (results : list SearchResult)
  : list SearchResult :=
  match results with
  | [] => []
  | result :: rest =>
      let url := url_of result in
      if truthy url && bool_decide (url ∉ seen_urls)
      then result :: unique_by_url ({[url]} ∪ seen_urls) rest
      else unique_by_url seen_urls rest
  end.

Section Provider.
(** [ddgs.text] and [ddgs.news]: the records the provider yields for a
    query and a cap before it stops or fails (a failure is caught and
    keeps the results built so far). *)
Variable ddgs_text : string -> Z -> list ProviderRecord.
Variable ddgs_news : string -> Z -> list ProviderRecord.

(** [self.max_results] *)
Definition default_max_results : Z := 5.

Definition _execute_search (query : string) (max_results : Z) : list SearchResult :=
  map (fun '(idx, result) =>
         {| result_rank := Some (Z.of_nat idx + 1);
            result_title := Some (get (provider_title result) "No title");
            result_snippet := Some (get (provider_body result) "No description");
            result_url := Some (get (provider_href result) "");
            result_source := Some "duckduckgo";
            result_date := None;
            result_search_type := None |})
      (enumerate (ddgs_text query max_results)).

Definition search_news (query : string) (max_results : option Z) : list SearchResult :=
  let max_results := int_or max_results default_max_results in
  map (fun '(idx, result) =>
         {| result_rank := Some (Z.of_nat idx + 1);
            result_title := Some (get (provider_title result) "No title");
            result_snippet := Some (get (provider_body result) "No description");
            result_url := Some (get (provider_url result) "");
            result_source := Some "news";
            result_date := Some (get (provider_date result) "");
            result_search_type := Some "news" |})
      (enumerate (ddgs_news query max_results)).

(** [all_results] after the two [extend] calls. *)
Definition all_results (query : string) (max_results : option Z) (include_news : bool)
  : list SearchResult :=
  let max_results := int_or max_results default_max_results in
  _execute_search query max_results
  ++ (if include_news then search_news query (Some (Z.div max_results 2)) else []).

(** [unique_results] before it is sorted. *)
Definition unique_results (query : string) (max_results : option Z) (include_news : bool)
  : list SearchResult :=
  unique_by_url ∅ (all_results query max_results include_news).

Definition multi_source_search (query : string) (max_results : option Z)
    (include_news : bool) : list SearchResult :=
  let unique := unique_results query max_results include_news in
  let sorted := sort_by_key sort_key tuple_leb unique in
  slice_to sorted (int_or max_results default_max_results * 2).

End Provider.

(** *** A concrete provider, for the examples *)

Definition web_hit (title href : string) : ProviderRecord :=
  {| provider_title := Some title; provider_body := Some "text";
     provider_href := Some href; provider_url := None; provider_date := None |}.

Definition news_hit (title url : string) : ProviderRecord :=
  {| provider_title := Some title; provider_body := Some "text";
     provider_href := None; provider_url := Some url; provider_date := Some "2024" |}.

(** Four web hits, the second without a link and the fourth with an empty
    one; two news hits, the second on the page of the first web hit. *)
Definition sample_text (query : string) (max_results : Z) : list ProviderRecord :=
  [ web_hit "A" "http://a";
    {| provider_title := Some "B"; provider_body := Some "text";
       provider_href := None; provider_url := None; provider_date := None |};
    web_hit "C" "http://c";
    web_hit "D" "" ].

Definition sample_news (query : string) (max_results : Z) : list ProviderRecord :=
  [ news_hit "N" "http://n"; news_hit "A again" "http://a" ].

Definition sample_output : list SearchResult :=
  multi_source_search sample_text sample_news "q" None true.

(** *** Deduplication *)

Lemma unique_by_url_spec results : forall seen result,
  In result (unique_by_url seen results) ->
  truthy (url_of result) = true /\
  (url_of result ∉ seen) /\
  exists before after,
    results = before ++ result :: after /\
    forall earlier, In earlier before -> url_of earlier <> url_of result.
Proof.
  induction results as [|r0 rest IH]; intros seen result Hin; cbn in Hin; [easy|].
  destruct (truthy (url_of r0) && bool_decide (url_of r0 ∉ seen)) eqn:Hcond.
  - apply andb_prop in Hcond as [Htruthy Hnew%bool_decide_eq_true].
    destruct Hin as [<-|Hin].
    + split; [done|]. split; [done|]. exists [], rest. split; [done|]. intros ? [].
    + destruct (IH _ _ Hin) as (Ht & Hseen & before & after & Hrest & Hfirst).
      subst rest. split; [done|]. split; [set_solver|].
      exists (r0 :: before), after. split; [done|].
      intros earlier [<-|He]; [set_solver|auto].
  - destruct (IH _ _ Hin) as (Ht & Hseen & before & after & Hrest & Hfirst).
    subst rest. split; [done|]. split; [done|].
    exists (r0 :: before), after. split; [done|].
    intros earlier [<-|He]; [|auto].
    intros Heq. rewrite Heq, Ht in Hcond. cbn in Hcond.
    by apply bool_decide_eq_false in Hcond.
Qed.

Lemma unique_by_url_NoDup results : forall seen,
  NoDup (map url_of (unique_by_url seen results)).
Proof.
  induction results as [|r0 rest IH]; intros seen; cbn; [constructor|].
  destruct (truthy (url_of r0) && bool_decide (url_of r0 ∉ seen)); [|apply IH].
  cbn. apply NoDup_cons. split; [|apply IH].
  intros (r & Heq & Hin%list_elem_of_In)%list_elem_of_fmap.
  apply unique_by_url_spec in Hin as (_ & Hseen & _). set_solver.
Qed.

(** Every non-empty url not seen yet is represented after the loop. *)
Lemma unique_by_url_complete results : forall seen result,
  In result results -> truthy (url_of result) = true -> url_of result ∉ seen ->
  In (url_of result) (map url_of (unique_by_url seen results)).
Proof.
  induction results as [|r0 rest IH]; intros seen result Hin Ht Hseen; [easy|].
  cbn [unique_by_url].
  destruct (truthy (url_of r0) && bool_decide (url_of r0 ∉ seen)) eqn:Hcond.
  - destruct (decide (url_of r0 = url_of result)) as [Heq|Hne]; [by left|].
    destruct Hin as [Heq|Hin]; [by subst r0|].
    right. apply IH; [done..|set_solver].
  - destruct Hin as [Heq|Hin]; [subst r0|by apply IH].
    rewrite Ht in Hcond. cbn in Hcond. by apply bool_decide_eq_false in Hcond.
Qed.

(** *** The order on sort keys *)

Lemma tuple_leb_total a b : tuple_leb a b = true \/ tuple_leb b a = true.
Proof. unfold tuple_leb. destruct a, b; cbn. lia. Qed.

Lemma tuple_leb_trans a b c :
  tuple_leb a b = true -> tuple_leb b c = true -> tuple_leb a c = true.
Proof. unfold tuple_leb. destruct a, b, c; cbn. lia. Qed.

Lemma tuple_leb_refl a : tuple_leb a a = true.
Proof. unfold tuple_leb. lia. Qed.

(** What the order on keys says about two results. *)
Lemma key_le_news_rank a b :
  key_le sort_key tuple_leb a b ->
  (is_news b = true -> is_news a = true) /\
  (is_news a = is_news b -> get (result_rank a) 999 <= get (result_rank b) 999).
Proof.
  unfold key_le, tuple_leb, sort_key. cbn.
  destruct (is_news a), (is_news b); cbn; intros H; split; try done; lia.
Qed.

(** *** Properties of [multi_source_search] *)

Section Properties.
Variable ddgs_text : string -> Z -> list ProviderRecord.
Variable ddgs_news : string -> Z -> list ProviderRecord.

Local Abbreviation all_results := (Search.all_results ddgs_text ddgs_news).
Local Abbreviation unique_results := (Search.unique_results ddgs_text ddgs_news).
Local Abbreviation multi_source_search := (Search.multi_source_search ddgs_text ddgs_news).

(** The output is a prefix of the sorted list of unique results. *)
Lemma multi_source_search_prefix query max_results include_news :
  exists cut,
    sort_by_key sort_key tuple_leb (unique_results query max_results include_news)
    = multi_source_search query max_results include_news ++ cut.
Proof. unfold Search.multi_source_search. apply slice_to_prefix. Qed.

(** The output and what the truncation cut are the unique results. *)
Lemma multi_source_search_perm query max_results include_news :
  exists cut,
    Permutation (multi_source_search query max_results include_news ++ cut)
                (unique_results query max_results include_news).
Proof.
  destruct (multi_source_search_prefix query max_results include_news) as [cut Hcut].
  exists cut. rewrite <- Hcut. apply sort_by_key_perm.
Qed.

(** C1, as the code has it: the output holds no two entries with the
    same url; every entry of the output has a non-empty url and is,
    unchanged (so with its own rank), the first entry of the concatenated
    results with that url; an entry whose url is missing or empty is
    dropped, never kept; and every non-empty url of the concatenated
    results is in the output or in what the final truncation cut. *)
Theorem multi_source_search_unique_urls query max_results include_news :
  let all := all_results query max_results include_news in
  let out := multi_source_search query max_results include_news in
  NoDup (map url_of out) /\
  (forall result, In result out ->
     url_of result <> "" /\
     exists before after,
       all = before ++ result :: after /\
       forall earlier, In earlier before -> url_of earlier <> url_of result) /\
  (forall result, url_of result = "" -> ~ In result out) /\
  (exists cut,
     sort_by_key sort_key tuple_leb (unique_by_url ∅ all) = out ++ cut /\
     forall result, In result all -> url_of result <> "" ->
       In (url_of result) (map url_of (out ++ cut))).
Proof.
  cbv zeta.
  destruct (multi_source_search_prefix query max_results include_news) as [cut Hcut].
  pose proof (sort_by_key_perm sort_key tuple_leb
                (unique_results query max_results include_news)) as Hperm.
  rewrite Hcut in Hperm.
  assert (Hout : forall result,
             In result (multi_source_search query max_results include_news) ->
             In result (unique_results query max_results include_news)).
  { intros result Hin. eapply Permutation_in; [exact Hperm|].
    apply in_or_app. by left. }
  assert (Hnonempty : forall result,
             In result (multi_source_search query max_results include_news) ->
             url_of result <> "").
  { intros result Hin%Hout%unique_by_url_spec.
    destruct Hin as (Ht & _). intros Heq. by rewrite Heq in Ht. }
  repeat split.
  - pose proof (unique_by_url_NoDup
                  (all_results query max_results include_news) ∅) as Hnd.
    fold (unique_results query max_results include_news) in Hnd.
    rewrite <- Hperm, map_app in Hnd. by apply NoDup_app in Hnd as (Hnd & _).
  - by apply Hnonempty.
  - apply Hout, unique_by_url_spec in H as (_ & _ & Hfirst). exact Hfirst.
  - intros result Hempty Hin. by apply Hnonempty in Hin.
  - exists cut. split; [exact Hcut|].
    intros result Hin Hurl.
    eapply Permutation_in; [apply Permutation_map, Permutation_sym, Hperm|].
    apply unique_by_url_complete; [done| |set_solver].
    destruct (url_of result); [done|reflexivity].
Qed.

(** C4: in the output every news entry comes before every entry that is
    not news, and inside each of the two groups the ranks ascend; entries
    with the same key (same group, same rank) are in the order in which
    they arrived. *)
Theorem multi_source_search_news_first query max_results include_news :
  let out := multi_source_search query max_results include_news in
  StronglySorted (key_le sort_key tuple_leb) out /\
  (forall i j a b,
     out !! i = Some a -> out !! j = Some b -> (i < j)%nat ->
     (is_news b = true -> is_news a = true) /\
     (is_news a = is_news b -> get (result_rank a) 999 <= get (result_rank b) 999)) /\
  (forall k, exists cut,
     List.filter (fun r => bool_decide (sort_key r = k))
                 (unique_results query max_results include_news)
     = List.filter (fun r => bool_decide (sort_key r = k)) out ++ cut).
Proof.
  cbv zeta.
  destruct (multi_source_search_prefix query max_results include_news) as [cut Hcut].
  assert (Hsorted : StronglySorted (key_le sort_key tuple_leb)
                      (multi_source_search query max_results include_news)).
  { apply StronglySorted_prefix with (l2 := cut). rewrite <- Hcut.
    apply sort_by_key_sorted; [apply tuple_leb_total|apply tuple_leb_trans]. }
  split; [exact Hsorted|]. split.
  - intros i j a b Hi Hj Hlt. apply key_le_news_rank.
    eapply StronglySorted_lookup; eauto.
  - intros k. exists (List.filter (fun r => bool_decide (sort_key r = k)) cut).
    rewrite <- List.filter_app, <- Hcut.
    symmetry. apply sort_by_key_filter.
    intros a b Ha%bool_decide_eq_true Hb%bool_decide_eq_true.
    rewrite Ha, Hb. apply tuple_leb_refl.
Qed.

End Properties.

(** The sample: the news hit first, then the web hits by rank; the second
    hit on [http://a] and the two hits without a link are gone. *)
Example sample_output_value :
  map (fun r => (get (result_title r) "", url_of r, get (result_rank r) 999)) sample_output
  = [("N", "http://n", 1); ("A", "http://a", 1); ("C", "http://c", 3)].
Proof. vm_compute. reflexivity. Qed.

(** C1 as the specification words it fails: the two results without a url
    that the provider returned are in the concatenated results and are not
    in the output, so results with a missing url are not all retained. *)
Lemma missing_url_results_dropped :
  exists b d,
    In b (all_results sample_text sample_news "q" None true) /\
    In d (all_results sample_text sample_news "q" None true) /\
    b <> d /\ url_of b = "" /\ url_of d = "" /\
    ~ In b sample_output /\ ~ In d sample_output.
Proof.
  exists {| result_rank := Some 2; result_title := Some "B";
            result_snippet := Some "text"; result_url := Some "";
            result_source := Some "duckduckgo"; result_date := None;
            result_search_type := None |},
         {| result_rank := Some 4; result_title := Some "D";
            result_snippet := Some "text"; result_url := Some "";
            result_source := Some "duckduckgo"; result_date := None;
            result_search_type := None |}.
  vm_compute. repeat split; try tauto; try discriminate.
  all: intros [H|[H|[H|[]]]]; discriminate.
Qed.

(** *** The single-source search and the shape of its results *)

(** [self.name] *)
Definition name : string := "SearchAgent".

Definition _log_action (kg : option KnowledgeGraph.t) (action : string) (data : value)
    (now_iso : string) : option KnowledgeGraph.t :=
  match kg with
  | Some g => Some (KnowledgeGraph.log_agent_action g name action data (Some now_iso) now_iso)
  | None => None
  end.

(** [search]. Its [except] branch, which would log [search_failed] and
    return the empty list, runs only on an exception of [_execute_search] or
    of the second log call: [_execute_search] catches its own and the log
    call raises none, so the branch is never taken. *)
Definition search (ddgs_text : string -> Z -> list ProviderRecord)
    (kg : option KnowledgeGraph.t) (query : string) (max_results : option Z)
    (now1 now2 : string) : list SearchResult * option KnowledgeGraph.t :=
  let max_results := int_or max_results default_max_results in
  let kg1 := _log_action kg "search_started" (VDict [("query", VStr query)]) now1 in
  let results := _execute_search ddgs_text query max_results in
  let kg2 :=
    _log_action kg1 "search_completed"
      (VDict [("query", VStr query);
              ("result_count", VInt (Z.of_nat (length results)));
              ("success", VBool true)]) now2 in
  (results, kg2).

Lemma enumerate_from_length {A} (l : list A) : forall i,
  length (enumerate_from i l) = length l.
Proof. induction l as [|x l IH]; intros i; cbn; [reflexivity|by rewrite IH]. Qed.

Lemma enumerate_from_fst {A} (l : list A) : forall i,
  map fst (enumerate_from i l) = seq i (length l).
Proof. induction l as [|x l IH]; intros i; cbn; [reflexivity|by rewrite IH]. Qed.

Lemma enumerate_from_snd {A} (l : list A) : forall i,
  map snd (enumerate_from i l) = l.
Proof. induction l as [|x l IH]; intros i; cbn; [reflexivity|by rewrite IH]. Qed.

(** X7: what a source call returns. [_execute_search] and [search_news]
    return one result per record of the provider, in the provider's order,
    with ranks 1, 2, ..., n; each result has a title, a snippet and a url
    (the provider's, or "No title", "No description", the empty string), so a
    reader's own defaults for these keys never apply; web results have the
    source "duckduckgo" and carry neither a date nor a [search_type]; news
    results have the source "news", a date (the provider's, or the empty
    string) and the [search_type] "news". *)
Theorem source_results_shape
    (ddgs_text ddgs_news : string -> Z -> list ProviderRecord)
    (query : string) (max_results : Z) (news_max : option Z) :
  let records := ddgs_text query max_results in
  let web := _execute_search ddgs_text query max_results in
  let news_records := ddgs_news query (int_or news_max default_max_results) in
  let news := search_news ddgs_news query news_max in
  (map result_rank web = map (fun i => Some (Z.of_nat i + 1)) (seq 0 (length records)) /\
   map result_title web = map (fun r => Some (get (provider_title r) "No title")) records /\
   map result_snippet web
   = map (fun r => Some (get (provider_body r) "No description")) records /\
   map result_url web = map (fun r => Some (get (provider_href r) "")) records /\
   Forall (fun r => result_source r = Some "duckduckgo" /\ result_date r = None /\
                    result_search_type r = None /\ is_news r = false) web) /\
  (map result_rank news
   = map (fun i => Some (Z.of_nat i + 1)) (seq 0 (length news_records)) /\
   map result_title news
   = map (fun r => Some (get (provider_title r) "No title")) news_records /\
   map result_snippet news
   = map (fun r => Some (get (provider_body r) "No description")) news_records /\
   map result_url news = map (fun r => Some (get (provider_url r) "")) news_records /\
   map result_date news = map (fun r => Some (get (provider_date r) "")) news_records /\
   Forall (fun r => result_source r = Some "news" /\
                    result_search_type r = Some "news" /\ is_news r = true) news).
Proof.
  cbv zeta. unfold _execute_search, search_news, enumerate.
  generalize (ddgs_text query max_results) as records.
  generalize (ddgs_news query (int_or news_max default_max_results)) as news_records.
  intros news_records records.
  assert (Hfst : forall (l : list ProviderRecord) (f : nat -> option Z),
            map (fun '(i, _) => f i) (enumerate_from 0 l) = map f (seq 0 (length l))).
  { intros l f. rewrite <- (enumerate_from_fst l 0), map_map.
    apply map_ext. by intros [i r]. }
  assert (Hsnd : forall (l : list ProviderRecord) (f : ProviderRecord -> option string),
            map (fun '(_, r) => f r) (enumerate_from 0 l) = map f l).
  { intros l f. rewrite <- (enumerate_from_snd l 0) at 2. rewrite map_map.
    apply map_ext. by intros [i r]. }
  rewrite !map_map.
  split; repeat split.
  - rewrite <- (Hfst records). apply map_ext. by intros [i r].
  - rewrite <- (Hsnd records). apply map_ext. by intros [i r].
  - rewrite <- (Hsnd records). apply map_ext. by intros [i r].
  - rewrite <- (Hsnd records). apply map_ext. by intros [i r].
  - apply Forall_forall. intros r (x & -> & _)%list_elem_of_fmap. by destruct x.
  - rewrite <- (Hfst news_records). apply map_ext. by intros [i r].
  - rewrite <- (Hsnd news_records). apply map_ext. by intros [i r].
  - rewrite <- (Hsnd news_records). apply map_ext. by intros [i r].
  - rewrite <- (Hsnd news_records). apply map_ext. by intros [i r].
  - rewrite <- (Hsnd news_records). apply map_ext. by intros [i r].
  - apply Forall_forall. intros r (x & -> & _)%list_elem_of_fmap. by destruct x.
Qed.

(** X8: [search] returns the results of [_execute_search] at the default
    cap of 5 when no cap (or 0) is given, and writes two entries to the
    knowledge graph, [search_started] and then [search_completed] with the
    number of results, under the name SearchAgent and in the current session;
    no other action is logged and no session is added. *)
Theorem search_logs_two_actions
    (ddgs_text : string -> Z -> list ProviderRecord)
    (kg : KnowledgeGraph.t) (query : string) (max_results : option Z)
    (now1 now2 : string) :
  let results := _execute_search ddgs_text query (int_or max_results 5) in
  let out := search ddgs_text (Some kg) query max_results now1 now2 in
  fst out = results /\
  exists kg',
    snd out = Some kg' /\
    KnowledgeGraph.actions (KnowledgeGraph.graph kg')
    = KnowledgeGraph.actions (KnowledgeGraph.graph kg)
      ++ [ {| KnowledgeGraph.entry_agent := "SearchAgent";
              KnowledgeGraph.entry_action := "search_started";
              KnowledgeGraph.entry_timestamp := now1;
              KnowledgeGraph.entry_session_id := KnowledgeGraph.current_session_id kg;
              KnowledgeGraph.entry_data := VDict [("query", VStr query)] |};
           {| KnowledgeGraph.entry_agent := "SearchAgent";
              KnowledgeGraph.entry_action := "search_completed";
              KnowledgeGraph.entry_timestamp := now2;
              KnowledgeGraph.entry_session_id := KnowledgeGraph.current_session_id kg;
              KnowledgeGraph.entry_data :=
                VDict [("query", VStr query);
                       ("result_count", VInt (Z.of_nat (length results)));
                       ("success", VBool true)] |} ] /\
    length (KnowledgeGraph.sessions (KnowledgeGraph.graph kg'))
    = length (KnowledgeGraph.sessions (KnowledgeGraph.graph kg)) /\
    KnowledgeGraph.current_session_id kg' = KnowledgeGraph.current_session_id kg.
Proof.
  cbv zeta. split; [reflexivity|]. eexists. split; [reflexivity|].
  cbn. rewrite <- app_assoc. split; [reflexivity|]. split; [|reflexivity].
  destruct (KnowledgeGraph.current_session_id kg) as [cur|]; [|reflexivity].
  destruct (truthy cur); [|reflexivity].
  by rewrite !KnowledgeGraph.update_first_length.
Qed.

(** *** Bounds and the search without news *)

Lemma slice_to_length {A} (l : list A) (k : Z) :
  0 <= k -> Z.of_nat (length (slice_to l k)) <= k.
Proof.
  intros Hk. unfold slice_to. destruct (Z.leb_spec 0 k); [|lia].
  rewrite length_firstn. lia.
Qed.

(** X9: the size of the answer. When the cap in force ([max_results], or 5
    when it is absent or 0) is not negative, [multi_source_search] returns at
    most twice that many results. *)
Theorem multi_source_search_at_most_twice_max
    (ddgs_text ddgs_news : string -> Z -> list ProviderRecord)
    (query : string) (max_results : option Z) (include_news : bool) :
  0 <= int_or max_results default_max_results ->
  Z.of_nat (length (multi_source_search ddgs_text ddgs_news query max_results include_news))
  <= 2 * int_or max_results default_max_results.
Proof.
  intros Hmax. unfold multi_source_search.
  etrans; [apply slice_to_length; lia|lia].
Qed.

Lemma multi_source_search_at_most_twice_max_witness :
  Z.of_nat (length (multi_source_search sample_text sample_news "q" (Some 1) true)) <= 2.
Proof.
  apply (multi_source_search_at_most_twice_max sample_text sample_news "q" (Some 1) true).
  vm_compute. discriminate.
Defined.

(** With a cap of 1 the news call runs at the default cap (1 // 2 is 0,
    which counts as no cap), and the truncation to two results cuts. *)
Example multi_source_search_cap_one :
  map url_of (multi_source_search sample_text sample_news "q" (Some 1) true)
  = ["http://n"; "http://a"].
Proof. vm_compute. reflexivity. Qed.

Lemma unique_by_url_sublist results : forall seen,
  sublist (unique_by_url seen results) results.
Proof.
  induction results as [|r rest IH]; intros seen; cbn; [constructor|].
  destruct (truthy (url_of r) && bool_decide (url_of r ∉ seen)).
  - by apply sublist_skip.
  - by apply sublist_cons.
Qed.

Lemma StronglySorted_sublist {A} (R : A -> A -> Prop) (l1 l2 : list A) :
  sublist l1 l2 -> StronglySorted R l2 -> StronglySorted R l1.
Proof.
  induction 1 as [|x l1 l2 Hsub IH|x l1 l2 Hsub IH]; intros Hs.
  - constructor.
  - apply StronglySorted_inv in Hs as [Hs Hx].
    constructor; [auto|]. rewrite Forall_forall in Hx |- *.
    intros y Hy. apply Hx. by apply (sublist_subseteq _ _ Hsub).
  - apply StronglySorted_inv in Hs as [Hs _]. auto.
Qed.

(** The web results are in the order of the final sort already. *)
Lemma _execute_search_sorted ddgs_text query max_results :
  StronglySorted (key_le sort_key tuple_leb) (_execute_search ddgs_text query max_results).
Proof.
  unfold _execute_search, enumerate.
  generalize (ddgs_text query max_results) as records. generalize 0%nat as i.
  intros i records. revert i.
  induction records as [|r records IH]; intros i; cbn; [constructor|].
  constructor; [apply IH|].
  apply Forall_forall. intros x (y & -> & Hy)%list_elem_of_fmap.
  destruct y as [j r']. unfold key_le, sort_key, tuple_leb, is_news. cbn.
  apply list_elem_of_lookup in Hy as [k Hk].
  rewrite enumerate_from_lookup in Hk.
  destruct (records !! k); [|discriminate]. injection Hk as <- <-.
  rewrite bool_decide_eq_false_2 by discriminate.
  change ((Z.of_nat i + 1 <=? Z.of_nat (S (i + k)) + 1) = true).
  apply Z.leb_le. lia.
Qed.

(** A list that is sorted already is what the stable sort returns. *)
Lemma sort_by_key_sorted_id {A K} (key : A -> K) (leb : K -> K -> bool) (l : list A) :
  (forall a b, leb a b = true \/ leb b a = true) ->
  (forall a b c, leb a b = true -> leb b c = true -> leb a c = true) ->
  StronglySorted (key_le key leb) l -> sort_by_key key leb l = l.
Proof.
  intros Htotal Htrans Hl. symmetry.
  by apply (sort_by_key_unique key leb Htotal Htrans).
Qed.

(** X10: the search without news. With [include_news] false the answer is
    the web results in the provider's order, without those whose url is
    empty or was seen before, cut to twice the cap: the final sort moves
    nothing. *)
Theorem multi_source_search_web_only
    (ddgs_text ddgs_news : string -> Z -> list ProviderRecord)
    (query : string) (max_results : option Z) :
  let cap := int_or max_results default_max_results in
  multi_source_search ddgs_text ddgs_news query max_results false
  = slice_to (unique_by_url ∅ (_execute_search ddgs_text query cap)) (cap * 2).
Proof.
  cbv zeta. unfold multi_source_search, unique_results, all_results.
  rewrite app_nil_r. f_equal.
  apply sort_by_key_sorted_id; [apply tuple_leb_total|apply tuple_leb_trans|].
  eapply StronglySorted_sublist; [apply unique_by_url_sublist|].
  apply _execute_search_sorted.
Qed.

End Search.

(** ** String operations of the summarizer

    A [string] is read as the sequence of its characters, each a code point
    below 256. *)

Module Str.

(** [sep in s] *)
Fixpoint contains (sep s : string) : bool :=
  String.prefix sep s ||
  match s with
  | EmptyString => false
  | String _ rest => contains sep rest
  end.

Definition rev_string (s : string) : string :=
  String.string_of_list_ascii (rev (String.list_ascii_of_string s)).

(** [s.split(sep)] for a non-empty [sep]: the occurrences are found from
    the left and do not overlap. [skip] counts the characters of a matched
    separator still to pass, [cur] is the current piece, reversed. *)
Fixpoint split_from (sep : string) (skip : nat) (cur : list ascii) (s : string)
  : list string :=
  match s with
  | EmptyString => [String.string_of_list_ascii (rev cur)]
  | String c rest =>
      match skip with
      | S k => split_from sep k cur rest
      | O =>
          if String.prefix sep s
          then String.string_of_list_ascii (rev cur)
               :: split_from sep (String.length sep - 1) [] rest
          else split_from sep 0 (c :: cur) rest
      end
  end.

Definition split (sep s : string) : list string := split_from sep 0 [] s.

(** [str.isspace] on one character. *)
Definition is_space (c : ascii) : bool :=
  let n := nat_of_ascii c in
  ((9 <=? n) && (n <=? 13) || (28 <=? n) && (n <=? 32) || (n =? 133) || (n =? 160))%nat.

Fixpoint lstrip (s : string) : string :=
  match s with
  | EmptyString => EmptyString
  | String c rest => if is_space c then lstrip rest else s
  end.

(** [s.strip()] *)
Definition strip (s : string) : string :=
  rev_string (lstrip (rev_string (lstrip s))).

(** [sep.join(parts)] *)
Fixpoint join (sep : string) (parts : list string) : string :=
  match parts with
  | [] => ""
  | [p] => p
  | p :: rest => p +:+ sep +:+ join sep rest
  end.

(** [s[:n]] for [n >= 0]. *)
Definition take (n : nat) (s : string) : string := String.substring 0 n s.

Definition newline : string := String (ascii_of_nat 10) "".
Definition quote : string := String (ascii_of_nat 34) "".

Lemma take_length n s : String.length (take n s) = Nat.min n (String.length s).
Proof.
  unfold take. revert s. induction n as [|n IH]; intros [|c s]; cbn; auto.
Qed.

Lemma split_from_nonempty sep s : forall skip cur,
  (1 <= length (split_from sep skip cur s))%nat.
Proof.
  induction s as [|c s IH]; intros skip cur; cbn [split_from]; [cbn; lia|].
  destruct skip; [|apply IH].
  destruct (String.prefix sep (String c s)); [|apply IH].
  cbn [length]. lia.
Qed.

(** When the separator occurs, the split has a second piece: the index [1]
    of [strip_fence] exists. *)
Lemma split_contains sep s :
  sep <> "" -> contains sep s = true -> (2 <= length (split sep s))%nat.
Proof.
  intros Hsep. unfold split. generalize (@nil ascii) as cur.
  induction s as [|c s IH]; intros cur Hc.
  - cbn in Hc. destruct sep; [done|discriminate].
  - cbn [split_from]. cbn [contains] in Hc.
    destruct (String.prefix sep (String c s)) eqn:Hp.
    + cbn [length].
      pose proof (split_from_nonempty sep s (String.length sep - 1) []). lia.
    + apply IH. exact Hc.
Qed.

Example split_fenced :
  split "```json" ("Here:" +:+ newline +:+ "```json{}```" +:+ newline +:+ "bye")
  = ["Here:" +:+ newline; "{}```" +:+ newline +:+ "bye"].
Proof. reflexivity. Qed.

Example split_trailing : split "```" "a```" = ["a"; ""].
Proof. reflexivity. Qed.

Example strip_both : strip ("  {} " +:+ newline) = "{}".
Proof. reflexivity. Qed.

(** *** Splitting around a fence *)

(** No character of [s] is a backtick. *)
Fixpoint no_backtick (s : string) : bool :=
  match s with
  | EmptyString => true
  | String c rest => negb (Ascii.eqb c "`"%char) && no_backtick rest
  end.

Lemma string_of_list_ascii_app l1 l2 :
  String.string_of_list_ascii (l1 ++ l2)
  = String.string_of_list_ascii l1 +:+ String.string_of_list_ascii l2.
Proof. induction l1 as [|c l1 IH]; cbn; [reflexivity|by rewrite IH]. Qed.

Lemma string_of_rev_walk pre cur :
  String.string_of_list_ascii (rev (rev (String.list_ascii_of_string pre) ++ cur))
  = String.string_of_list_ascii (rev cur) +:+ pre.
Proof.
  rewrite rev_app_distr, rev_involutive, string_of_list_ascii_app.
  by rewrite String.string_of_list_ascii_of_string.
Qed.

Lemma append_cons c a b : String c a +:+ b = String c (a +:+ b).
Proof. reflexivity. Qed.

Lemma append_nil b : "" +:+ b = b.
Proof. reflexivity. Qed.

Lemma prefix_nil s : String.prefix "" s = true.
Proof. by destruct s. Qed.

Lemma prefix_app sep rest : String.prefix sep (sep +:+ rest) = true.
Proof.
  induction sep as [|c sep IH]; [apply prefix_nil|].
  rewrite append_cons. cbn [String.prefix].
  destruct (ascii_dec c c); [exact IH|done].
Qed.

Lemma prefix_weaken a b s :
  String.prefix (a +:+ b) s = true -> String.prefix a s = true.
Proof.
  revert s. induction a as [|c a IH]; intros s; [intros _; apply prefix_nil|].
  rewrite append_cons. destruct s as [|d s]; cbn [String.prefix]; [done|].
  destruct (ascii_dec c d); [apply IH|done].
Qed.

Lemma contains_weaken a b s : contains (a +:+ b) s = true -> contains a s = true.
Proof.
  induction s as [|c s IH]; cbn [contains].
  - rewrite !orb_false_r. apply prefix_weaken.
  - intros [H|H]%orb_prop; apply orb_true_intro; [left|right; auto].
    by apply prefix_weaken in H.
Qed.

Lemma contains_app sep a b :
  String.prefix sep b = true -> contains sep (a +:+ b) = true.
Proof.
  intros Hb. induction a as [|c a IH].
  - rewrite append_nil. destruct b; cbn [contains]; by rewrite Hb.
  - rewrite append_cons. cbn [contains]. rewrite IH. apply orb_true_r.
Qed.

(** A separator that starts with a backtick does not match where the text
    has another character. *)
Lemma prefix_no_backtick sep c s :
  Ascii.eqb c "`"%char = false ->
  String.prefix (String "`"%char sep) (String c s) = false.
Proof.
  intros Hc. cbn [String.prefix].
  destruct (ascii_dec "`"%char c) as [<-|]; [discriminate|done].
Qed.

Lemma split_from_walk sep pre : forall cur rest,
  no_backtick pre = true ->
  split_from (String "`"%char sep) 0 cur (pre +:+ rest)
  = split_from (String "`"%char sep) 0
      (rev (String.list_ascii_of_string pre) ++ cur) rest.
Proof.
  induction pre as [|c pre IH]; intros cur rest Hpre; [reflexivity|].
  cbn [no_backtick] in Hpre. apply andb_prop in Hpre as [Hc%negb_true_iff Hpre].
  rewrite append_cons. cbn [split_from].
  rewrite (prefix_no_backtick sep c (pre +:+ rest) Hc).
  rewrite IH by exact Hpre. cbn [String.list_ascii_of_string rev].
  by rewrite <- app_assoc.
Qed.

Lemma split_from_skip sep x : forall cur rest,
  split_from sep (String.length x) cur (x +:+ rest) = split_from sep 0 cur rest.
Proof.
  induction x as [|c x IH]; intros cur rest.
  - rewrite append_nil. by destruct rest.
  - rewrite append_cons. cbn [String.length split_from]. apply IH.
Qed.

Lemma split_from_match c sep cur rest :
  split_from (String c sep) 0 cur (String c sep +:+ rest)
  = String.string_of_list_ascii (rev cur) :: split_from (String c sep) 0 [] rest.
Proof.
  pose proof (prefix_app (String c sep) rest) as Hp.
  rewrite append_cons in Hp |- *. cbn [split_from]. rewrite Hp. f_equal.
  replace (String.length (String c sep) - 1)%nat with (String.length sep)
    by (cbn [String.length]; lia).
  apply split_from_skip.
Qed.

(** The split at the first occurrence: the text before a separator that
    starts with a backtick, when that text has none. *)
Lemma split_first sep pre rest :
  no_backtick pre = true ->
  split (String "`"%char sep) (pre +:+ String "`"%char sep +:+ rest)
  = pre :: split (String "`"%char sep) rest.
Proof.
  intros Hpre. unfold split.
  rewrite split_from_walk, split_from_match by exact Hpre.
  by rewrite app_nil_r, rev_involutive, String.string_of_list_ascii_of_string.
Qed.

Lemma append_nil_r s : s +:+ "" = s.
Proof. induction s as [|c s IH]; [reflexivity|]. by rewrite append_cons, IH. Qed.

Lemma split_from_walk_end sep s cur :
  no_backtick s = true ->
  split_from (String "`"%char sep) 0 cur s
  = [String.string_of_list_ascii (rev (rev (String.list_ascii_of_string s) ++ cur))].
Proof.
  intros Hs. rewrite <- (append_nil_r s) at 1.
  by rewrite split_from_walk by exact Hs.
Qed.

Lemma split_none sep s :
  no_backtick s = true -> split (String "`"%char sep) s = [s].
Proof.
  intros Hs. unfold split.
  rewrite <- (append_nil_r s) at 1.
  rewrite split_from_walk by exact Hs. cbn [split_from].
  by rewrite app_nil_r, rev_involutive, String.string_of_list_ascii_of_string.
Qed.

End Str.

(** ** The summarizer: [agents/summarizer.py] *)

Module Summarizer.

Record KeyFinding := mkKeyFinding {
  finding_point : string;
  finding_source : string;
  finding_url : string
}.

Record Source := mkSource {
  source_title : string;
  source_url : string
}.

(** [key_findings]: the list the heuristic builds, or whatever the parsed
    answer of the model holds under that key. *)
Inductive Findings :=
| Extracted (findings : list KeyFinding)
| FromModel (answer : value).

(** The summary dict; the last three keys exist in a model summary only. *)
Record Summary := mkSummary {
  key_findings : Findings;
  source_count : nat;
  sources : list Source;
  synthesis_method : string;
  summary_text : option value;
  themes : option value;
  credibility_notes : option value
}.

(** What one request to the language model comes to: an exception (of the
    import, of [invoke], of reading [response.content]) or the text of the
    answer. *)
Inductive LLMOutcome :=
| Raises
| Content (result_text : string).

(** A language-model client: its [invoke] on a prompt. *)
Definition LLMClient := string -> LLMOutcome.

(** The part of [agents/config.py] the agent consults. *)
Record Config := mkConfig {
  enable_llm_summarization : bool;
  get_llm_client : option LLMClient
}.

(** The agent: [self.use_llm] and [self.llm_client]. [self.use_llm] is what
    [use_llm and config and config.enable_llm_summarization] evaluates to:
    a boolean, or [None] (here [None]) when [use_llm] is true and there is no
    configuration. *)
Record t := mkAgent {
  use_llm : option bool;
  llm_client : option LLMClient
}.

Definition name : string := "SummarizerAgent".

(** Truth value of [self.use_llm]. *)
Definition is_true (v : option bool) : bool :=
  match v with
  | Some b => b
  | None => false
  end.

(** [__init__] *)
Definition init (use_llm : bool) (config : option Config) : t :=
  let use :=
    if use_llm then
      match config with
      | Some c => Some (enable_llm_summarization c)
      | None => None
      end
    else Some false in
  {| use_llm := use;
     llm_client := if is_true use then config ≫= get_llm_client else None |}.

(** The loop [for result_list in search_results: all_results.extend(...)]. *)
Definition flatten (search_results : list (list SearchResult)) : list SearchResult :=
  concat search_results.

Definition key_finding (result : SearchResult) : KeyFinding :=
  {| finding_point := Str.take 200 (get (result_snippet result) "");
     finding_source := get (result_title result) "Unknown";
     finding_url := get (result_url result) "" |}.

(** [if result.get("url")] *)
Definition has_url (result : SearchResult) : bool :=
  match result_url result with
  | Some url => truthy url
  | None => false
  end.

Definition source_entry (result : SearchResult) : Source :=
  {| source_title := get (result_title result) "Unknown";
     source_url := get (result_url result) "" |}.

(** The body of the loop of [_synthesize_information], which appends to
    both lists. *)
Fixpoint extract (results : list SearchResult) : list KeyFinding * list Source :=
  match results with
  | [] => ([], [])
  | result :: rest =>
      let '(key_findings, sources) := extract rest in
      (key_finding result :: key_findings,
       if has_url result then source_entry result :: sources else sources)
  end.

Definition _synthesize_information (search_results : list (list SearchResult)) : Summary :=
  let all_results := flatten search_results in
  let '(key_findings, sources) := extract (slice_to all_results 10) in
  {| key_findings := Extracted key_findings;
     source_count := length all_results;
     sources := slice_to sources 15;
     synthesis_method := "heuristic_extraction";
     summary_text := None;
     themes := None;
     credibility_notes := None |}.

(** One entry of [context_parts]. *)
Definition context_part (idx : nat) (result : SearchResult) : string :=
  "Source " +:+ str_of_int (Z.of_nat idx) +:+ ": "
    +:+ get (result_title result) "Unknown" +:+ Str.newline
  +:+ "URL: " +:+ get (result_url result) "N/A" +:+ Str.newline
  +:+ "Content: " +:+ get (result_snippet result) "No description" +:+ Str.newline.

Definition quoted (s : string) : string := Str.quote +:+ s +:+ Str.quote.

Definition build_prompt (all_results : list SearchResult) : string :=
  let context_parts :=
    map (fun '(idx, result) => context_part idx result)
        (enumerate_from 1 (slice_to all_results 15)) in
  let context := Str.join Str.newline context_parts in
  Str.join Str.newline
    [ "You are a research analyst synthesizing information from multiple sources.";
      "";
      "Based on the following sources, extract and summarize the key findings:";
      "";
      context;
      "";
      "Provide your analysis in the following JSON format:";
      "{";
      "    " +:+ quoted "key_findings" +:+ ": [";
      "        {";
      "            " +:+ quoted "point" +:+ ": " +:+ quoted "Key insight or finding" +:+ ",";
      "            " +:+ quoted "source" +:+ ": " +:+ quoted "Source title" +:+ ",";
      "            " +:+ quoted "url" +:+ ": " +:+ quoted "Source URL" +:+ ",";
      "            " +:+ quoted "credibility" +:+ ": " +:+ quoted "high|medium|low";
      "        }";
      "    ],";
      "    " +:+ quoted "summary" +:+ ": " +:+ quoted "Overall summary paragraph" +:+ ",";
      "    " +:+ quoted "themes" +:+ ": [" +:+ quoted "theme1" +:+ ", " +:+ quoted "theme2" +:+ "],";
      "    " +:+ quoted "credibility_notes" +:+ ": " +:+ quoted "Notes on source reliability";
      "}";
      "";
      "Extract 5-8 key findings. Focus on factual information with proper attribution." ].

(** The two branches that take the text out of a fenced block. *)
Definition strip_fence (result_text : string) : string :=
  if Str.contains "```json" result_text then
    Str.strip (nth 0 (Str.split "```" (nth 1 (Str.split "```json" result_text) "")) "")
  else if Str.contains "```" result_text then
    Str.strip (nth 0 (Str.split "```" (nth 1 (Str.split "```" result_text) "")) "")
  else result_text.

(** [llm_result.get(key, default)]: an [AttributeError] ([None]) on
    anything but a dict. *)
Definition dict_get (v : value) (key : string) (default : value) : option value :=
  match v with
  | VDict d =>
      Some (match List.find (fun kv => String.eqb (fst kv) key) d with
            | Some kv => snd kv
            | None => default
            end)
  | _ => None
  end.

Section LanguageModel.
(** [json.loads]: [None] when it raises. *)
Variable json_loads : string -> option value.

(** The body of the [try]: [None] when an exception leaves it. *)
Definition llm_summary (client : LLMClient) (all_results : list SearchResult)
  : option Summary :=
  match client (build_prompt all_results) with
  | Raises => None
  | Content result_text =>
      llm_result ← json_loads (strip_fence result_text);
      let sources := map source_entry (List.filter has_url (slice_to all_results 15)) in
      findings ← dict_get llm_result "key_findings" (VList []);
      summary ← dict_get llm_result "summary" (VStr "");
      themes ← dict_get llm_result "themes" (VList []);
      notes ← dict_get llm_result "credibility_notes" (VStr "");
      Some {| key_findings := FromModel findings;
              source_count := length all_results;
              sources := sources;
              synthesis_method := "llm";
              summary_text := Some summary;
              themes := Some themes;
              credibility_notes := Some notes |}
  end.

Definition _synthesize_with_llm (client : LLMClient)
    (search_results : list (list SearchResult)) : Summary :=
  let all_results := flatten search_results in
  match all_results with
  | [] => _synthesize_information search_results
  | _ :: _ =>
      match llm_summary client all_results with
      | Some summary => summary
      | None => _synthesize_information search_results
      end
  end.

(** [len(summary.get("key_findings", []))]: a [TypeError] ([None]) on a
    value that has no length. *)
Definition count_findings (s : Summary) : option nat :=
  match key_findings s with
  | Extracted l => Some (length l)
  | FromModel (VList l) => Some (length l)
  | FromModel (VDict d) => Some (length d)
  | FromModel (VStr s) => Some (String.length s)
  | FromModel _ => None
  end.

Definition _log_action (kg : option KnowledgeGraph.t) (action : string) (data : value)
    (now_iso : string) : option KnowledgeGraph.t :=
  match kg with
  | Some g => Some (KnowledgeGraph.log_agent_action g name action data (Some now_iso) now_iso)
  | None => None
  end.

(** [summarize], with the knowledge graph it logs to and the two
    readings of the clock. The summary is [None] when the call raises:
    the [len] of the second log entry is taken outside any [try]. *)
Definition summarize (agent : t) (kg : option KnowledgeGraph.t)
    (search_results : list (list SearchResult)) (now1 now2 : string)
  : option Summary * option KnowledgeGraph.t :=
  let kg1 :=
    _log_action kg "summarization_started"
      (VDict [("source_count", VInt (Z.of_nat (length search_results)));
              ("using_llm",
               match use_llm agent with
               | Some true => VBool (bool_decide (is_Some (llm_client agent)))
               | Some false => VBool false
               | None => VNone
               end)])
      now1 in
  let summary :=
    match llm_client agent with
    | Some client => _synthesize_with_llm client search_results
    | None => _synthesize_information search_results
    end in
  match count_findings summary with
  | None => (None, kg1)
  | Some key_points =>
      (Some summary,
       _log_action kg1 "summarization_completed"
         (VDict [("source_count", VInt (Z.of_nat (length search_results)));
                 ("key_points", VInt (Z.of_nat key_points));
                 ("method", VStr (match llm_client agent with
                                  | Some _ => "llm"
                                  | None => "heuristic"
                                  end))])
         now2)
  end.

End LanguageModel.

(** *** Heuristic synthesis *)

Lemma extract_findings results : fst (extract results) = map key_finding results.
Proof.
  induction results as [|r rest IH]; [reflexivity|].
  cbn. destruct (extract rest). cbn in *. by rewrite IH.
Qed.

Lemma extract_sources results :
  snd (extract results) = map source_entry (List.filter has_url results).
Proof.
  induction results as [|r rest IH]; [reflexivity|].
  cbn. destruct (extract rest). cbn in *. rewrite IH.
  by destruct (has_url r).
Qed.

(** The summary of heuristic mode, field by field. *)
Lemma _synthesize_information_fields search_results :
  let all := flatten search_results in
  let s := _synthesize_information search_results in
  key_findings s = Extracted (map key_finding (firstn 10 all)) /\
  sources s = firstn 15 (map source_entry (List.filter has_url (firstn 10 all))) /\
  source_count s = length all /\
  synthesis_method s = "heuristic_extraction".
Proof.
  cbv zeta. unfold _synthesize_information.
  change (slice_to (flatten search_results) 10) with (firstn 10 (flatten search_results)).
  pose proof (extract_findings (firstn 10 (flatten search_results))) as Hf.
  pose proof (extract_sources (firstn 10 (flatten search_results))) as Hs.
  destruct (extract _) as [fs ss]. cbn in *. subst. auto.
Qed.

Lemma take_prefix n s : exists rest, s = Str.take n s +:+ rest.
Proof.
  unfold Str.take. revert s. induction n as [|n IH]; intros [|c s]; cbn.
  - by exists "".
  - by exists (String c s).
  - by exists "".
  - destruct (IH s) as [rest Hrest]. exists rest.
    change (String c s = String c (String.substring 0 n s +:+ rest)).
    by rewrite <- Hrest.
Qed.

(** C6: heuristic summarization of result lists whose flattened length is
    [n] returns exactly [min n 10] key findings, those of the first results
    in flattened order; the point of each is the first 200 characters of
    the snippet (the whole snippet when it is shorter, the empty string when
    there is none), its source is the title ("Unknown" when there is none),
    its url is the url (the empty string when there is none); the
    synthesis method is "heuristic_extraction". *)
Theorem heuristic_key_findings (search_results : list (list SearchResult)) :
  let all := flatten search_results in
  let s := _synthesize_information search_results in
  key_findings s = Extracted (map key_finding (firstn 10 all)) /\
  length (map key_finding (firstn 10 all)) = Nat.min (length all) 10 /\
  (forall result : SearchResult,
     let f := key_finding result in
     let snippet := get (result_snippet result) "" in
     (exists rest, snippet = finding_point f +:+ rest) /\
     String.length (finding_point f) = Nat.min 200 (String.length snippet) /\
     finding_source f = get (result_title result) "Unknown" /\
     finding_url f = get (result_url result) "") /\
  synthesis_method s = "heuristic_extraction".
Proof.
  cbv zeta.
  destruct (_synthesize_information_fields search_results) as (Hf & _ & _ & Hm).
  split; [exact Hf|]. split.
  { rewrite length_map, length_firstn. lia. }
  split; [|exact Hm].
  intros result. cbn. split; [apply take_prefix|].
  split; [apply Str.take_length|]. auto.
Qed.

(** The sources are exactly those of the first ten flattened results. *)
Lemma heuristic_sources_value search_results :
  sources (_synthesize_information search_results)
  = map source_entry (List.filter has_url (firstn 10 (flatten search_results))).
Proof.
  destruct (_synthesize_information_fields search_results) as (_ & Hs & _).
  rewrite Hs. apply firstn_all2.
  rewrite length_map. etrans; [apply List.filter_length_le|].
  rewrite length_firstn. lia.
Qed.

(** C5, as the code has it: the sources list holds at most 15 entries;
    it lists, in flattened order and without merging equal ones, entries
    [{title, url}] of flattened results that have a non-empty url, one per
    occurrence of such a result; and every such result among the first ten
    flattened results has its entry. *)
Theorem heuristic_sources (search_results : list (list SearchResult)) :
  let all := flatten search_results in
  let s := _synthesize_information search_results in
  (length (sources s) <= 15)%nat /\
  (exists later, map source_entry (List.filter has_url all) = sources s ++ later) /\
  (exists more,
     sources s = map source_entry (List.filter has_url (firstn 10 all)) ++ more).
Proof.
  cbv zeta. rewrite heuristic_sources_value. repeat split.
  - rewrite length_map. etrans; [apply List.filter_length_le|].
    rewrite length_firstn. lia.
  - exists (map source_entry (List.filter has_url (skipn 10 (flatten search_results)))).
    rewrite <- map_app, <- List.filter_app. by rewrite firstn_skipn.
  - exists []. by rewrite app_nil_r.
Qed.

(** A result with a link, as a search returns it. *)
Definition hit (rank : Z) (title url : string) : SearchResult :=
  {| result_rank := Some rank; result_title := Some title;
     result_snippet := Some "text"; result_url := Some url;
     result_source := Some "duckduckgo"; result_date := None;
     result_search_type := None |}.

(** Eleven results with a link each, from three searches. *)
Definition eleven_results : list (list SearchResult) :=
  [ [hit 1 "A" "http://a"; hit 2 "B" "http://b"; hit 3 "C" "http://c";
     hit 4 "D" "http://d"; hit 5 "E" "http://e"];
    [hit 1 "F" "http://f"; hit 2 "G" "http://g"; hit 3 "H" "http://h";
     hit 4 "I" "http://i"; hit 5 "J" "http://j"];
    [hit 1 "K" "http://k"] ].

(** C5 as the specification words it fails: when two searches return the
    same result, the sources list holds its entry twice, so the entries are
    not one per distinct result; and of eleven distinct results with a link
    the eleventh has no entry, although the list holds ten entries only. *)
Lemma heuristic_sources_repeat :
  let r := hit 1 "A" "http://a" in
  sources (_synthesize_information [[r]; [r]]) = [source_entry r; source_entry r] /\
  ~ NoDup (sources (_synthesize_information [[r]; [r]])) /\
  length (sources (_synthesize_information eleven_results)) = 10%nat /\
  ~ In (source_entry (hit 1 "K" "http://k"))
       (sources (_synthesize_information eleven_results)).
Proof.
  cbv zeta. split; [reflexivity|]. split; [|split; [reflexivity|]].
  - vm_compute. intros H. apply NoDup_cons in H as [H _].
    apply H. left.
  - vm_compute. intros H. repeat (destruct H as [H|H]; [discriminate|]). exact H.
Qed.

(** *** Falling back from the language model *)

Section Fallback.
Variable json_loads : string -> option value.

(** The [try] fails exactly when the call raises, the text is not JSON,
    or the parsed value is not an object. *)
Lemma llm_summary_None client all_results :
  llm_summary json_loads client all_results = None <->
  client (build_prompt all_results) = Raises \/
  exists result_text,
    client (build_prompt all_results) = Content result_text /\
    (json_loads (strip_fence result_text) = None \/
     exists v, json_loads (strip_fence result_text) = Some v /\
               forall d, v <> VDict d).
Proof.
  unfold llm_summary.
  destruct (client (build_prompt all_results)) as [|text]; [by intuition|].
  split.
  - intros H. right. exists text. split; [reflexivity|].
    destruct (json_loads (strip_fence text)) as [v|]; [|by left].
    right. exists v. split; [reflexivity|].
    intros d ->. cbn in H. discriminate.
  - intros [H|(text' & [= <-] & [H|(v & H & Hv)])]; [discriminate|..];
      rewrite H; [reflexivity|].
    destruct v; try reflexivity. by destruct (Hv d).
Qed.

(** C2: when the agent has a language-model client and the request
    raises, or the answer (once out of its fence) is not JSON, or is JSON
    but not an object, [summarize] returns (it does not raise) the summary
    of heuristic mode on the same input: synthesis method
    "heuristic_extraction" and the key findings that
    [_synthesize_information] extracts. *)
Theorem summarize_falls_back
    (agent : t) (client : LLMClient) (kg : option KnowledgeGraph.t)
    (search_results : list (list SearchResult)) (now1 now2 : string) :
  llm_client agent = Some client ->
  (client (build_prompt (flatten search_results)) = Raises \/
   exists result_text,
     client (build_prompt (flatten search_results)) = Content result_text /\
     (json_loads (strip_fence result_text) = None \/
      exists v, json_loads (strip_fence result_text) = Some v /\
                forall d, v <> VDict d)) ->
  let heuristic := _synthesize_information search_results in
  fst (summarize json_loads agent kg search_results now1 now2) = Some heuristic /\
  synthesis_method heuristic = "heuristic_extraction" /\
  key_findings heuristic
  = Extracted (map key_finding (firstn 10 (flatten search_results))).
Proof.
  intros Hclient Hfail. cbv zeta.
  destruct (_synthesize_information_fields search_results) as (Hf & _ & _ & Hm).
  split; [|by split].
  apply llm_summary_None in Hfail.
  unfold summarize. rewrite Hclient.
  assert (Hfallback : _synthesize_with_llm json_loads client search_results
                      = _synthesize_information search_results).
  { unfold _synthesize_with_llm.
    destruct (flatten search_results); [reflexivity|]. by rewrite Hfail. }
  rewrite Hfallback. unfold count_findings. rewrite Hf. reflexivity.
Qed.

End Fallback.

(** A client whose request always raises, one that answers prose, one
    that answers a JSON list in a fence, one that answers an object whose
    findings are null. *)
Definition failing_client : LLMClient := fun _ => Raises.
Definition prose_client : LLMClient := fun _ => Content "I cannot help with that.".
Definition list_client : LLMClient :=
  fun _ => Content ("```json" +:+ Str.newline +:+ "[1]" +:+ Str.newline +:+ "```").
Definition null_client : LLMClient := fun _ => Content "{null}".

(** A client that answers a JSON object without any key of the format asked
    for, [{"foo": 1}]. *)
Definition other_object : string := "{" +:+ quoted "foo" +:+ ": 1}".
Definition other_client : LLMClient := fun _ => Content other_object.

(** A stand-in for [json.loads] on the texts of the examples. *)
Definition sample_json_loads (text : string) : option value :=
  if String.eqb text "[1]" then Some (VList [VInt 1])
  else if String.eqb text "{}" then Some (VDict [])
  else if String.eqb text "{null}" then Some (VDict [("key_findings", VNone)])
  else if String.eqb text other_object then Some (VDict [("foo", VInt 1)])
  else None.

Definition sample_agent (client : LLMClient) : t :=
  init true (Some {| enable_llm_summarization := true; get_llm_client := Some client |}).

(** The model answers a JSON list in a fence: the summary is the heuristic
    one. *)
Lemma summarize_falls_back_witness :
  fst (summarize sample_json_loads (sample_agent list_client) None
         [[hit 1 "A" "http://a"]] "t1" "t2")
  = Some (_synthesize_information [[hit 1 "A" "http://a"]]).
Proof.
  apply (summarize_falls_back sample_json_loads (sample_agent list_client) list_client
           None [[hit 1 "A" "http://a"]] "t1" "t2").
  - reflexivity.
  - right. eexists. split; [reflexivity|].
    right. exists (VList [VInt 1]). split; [reflexivity|]. discriminate.
Defined.

Example summarize_raising_client :
  fst (summarize sample_json_loads (sample_agent failing_client) None
         [[hit 1 "A" "http://a"]] "t1" "t2")
  = Some (_synthesize_information [[hit 1 "A" "http://a"]]).
Proof. reflexivity. Qed.

Example summarize_prose_answer :
  fst (summarize sample_json_loads (sample_agent prose_client) None
         [[hit 1 "A" "http://a"]] "t1" "t2")
  = Some (_synthesize_information [[hit 1 "A" "http://a"]]).
Proof. reflexivity. Qed.

(** C2 as the specification words it fails: an answer that is a JSON
    object, but not of the structure asked for, is not a failure to the code.
    [_synthesize_with_llm] reads it with [.get] and its defaults, and
    [summarize] returns a summary of method "llm" without any finding, not
    the heuristic summary of the input. *)
Lemma summarize_accepts_other_object :
  exists summary,
    fst (summarize sample_json_loads (sample_agent other_client) None
           [[hit 1 "A" "http://a"]] "t1" "t2") = Some summary /\
    synthesis_method summary = "llm" /\
    synthesis_method summary <> "heuristic_extraction" /\
    key_findings summary = FromModel (VList []) /\
    key_findings (_synthesize_information [[hit 1 "A" "http://a"]])
    = Extracted [key_finding (hit 1 "A" "http://a")].
Proof.
  eexists. split; [reflexivity|]. cbn.
  split; [reflexivity|]. split; [discriminate|]. split; reflexivity.
Qed.

(** An object whose [key_findings] is null is accepted by
    [_synthesize_with_llm] in the same way, and [summarize] then raises on
    the [len] of the findings. *)
Example summarize_null_findings :
  fst (summarize sample_json_loads (sample_agent null_client) None
         [[hit 1 "A" "http://a"]] "t1" "t2") = None.
Proof. reflexivity. Qed.

(** *** Both modes of [summarize] *)

Section Modes.
Variable json_loads : string -> option value.

(** The summary that the [try] returns when nothing in it raises. *)
Lemma llm_summary_Some client all_results s :
  llm_summary json_loads client all_results = Some s ->
  exists result_text d,
    client (build_prompt all_results) = Content result_text /\
    json_loads (strip_fence result_text) = Some (VDict d) /\
    (exists v, dict_get (VDict d) "key_findings" (VList []) = Some v /\
               key_findings s = FromModel v) /\
    source_count s = length all_results /\
    sources s = map source_entry (List.filter has_url (firstn 15 all_results)) /\
    synthesis_method s = "llm".
Proof.
  unfold llm_summary.
  destruct (client (build_prompt all_results)) as [|text]; [discriminate|].
  destruct (json_loads (strip_fence text)) as [v|] eqn:Hv; [|discriminate].
  destruct v; try discriminate. cbn.
  intros [= <-]. exists text, d. cbn. eauto 10.
Qed.

(** X11: nothing to summarize. When the result lists are all empty (or
    there is none), [summarize] returns the heuristic summary with no
    finding, no source and a source count of 0, whether or not the agent has
    a language-model client: the model is not consulted. *)
Theorem summarize_nothing
    (agent : t) (kg : option KnowledgeGraph.t)
    (search_results : list (list SearchResult)) (now1 now2 : string) :
  flatten search_results = [] ->
  fst (summarize json_loads agent kg search_results now1 now2)
  = Some {| key_findings := Extracted [];
            source_count := 0;
            sources := [];
            synthesis_method := "heuristic_extraction";
            summary_text := None;
            themes := None;
            credibility_notes := None |}.
Proof.
  intros Hempty. unfold summarize, _synthesize_with_llm, _synthesize_information.
  rewrite Hempty. by destruct (llm_client agent).
Qed.

Lemma sources_from_prefix n (all_results : list SearchResult) :
  Forall (fun src => source_url src <> "" /\
                     exists r, In r all_results /\ src = source_entry r)
         (map source_entry (List.filter has_url (firstn n all_results))).
Proof.
  apply Forall_forall. intros src (r & -> & Hr)%list_elem_of_fmap.
  apply list_elem_of_In, List.filter_In in Hr as [Hin Hurl]. split.
  - unfold has_url in Hurl. unfold source_entry. cbn.
    destruct (result_url r) as [[|c u]|]; cbn in *; done.
  - exists r. split; [|reflexivity].
    rewrite <- (firstn_skipn n all_results). apply in_or_app. by left.
Qed.

(** X12: what every summary has. Whatever the mode and whatever the model
    answers, a summary that [summarize] returns counts all the flattened
    results in [source_count], lists at most 15 sources, each of them the
    [{title, url}] of an input result and with a non-empty url, and names one
    of the two synthesis methods. *)
Theorem summarize_summary_shape
    (agent : t) (kg : option KnowledgeGraph.t)
    (search_results : list (list SearchResult)) (now1 now2 : string) (s : Summary) :
  fst (summarize json_loads agent kg search_results now1 now2) = Some s ->
  source_count s = length (flatten search_results) /\
  (length (sources s) <= 15)%nat /\
  Forall (fun src => source_url src <> "" /\
                     exists r, In r (flatten search_results) /\ src = source_entry r)
         (sources s) /\
  (synthesis_method s = "heuristic_extraction" \/ synthesis_method s = "llm").
Proof.
  unfold summarize.
  set (summary := match llm_client agent with
                  | Some client => _synthesize_with_llm json_loads client search_results
                  | None => _synthesize_information search_results
                  end).
  destruct (count_findings summary); [|discriminate]. cbn [fst]. intros [= <-].
  assert (Hheur : let h := _synthesize_information search_results in
            source_count h = length (flatten search_results) /\
            (length (sources h) <= 15)%nat /\
            Forall (fun src => source_url src <> "" /\
                       exists r, In r (flatten search_results) /\ src = source_entry r)
                   (sources h) /\
            (synthesis_method h = "heuristic_extraction" \/ synthesis_method h = "llm")).
  { cbv zeta.
    destruct (_synthesize_information_fields search_results) as (_ & _ & Hc & Hm).
    split; [exact Hc|]. rewrite heuristic_sources_value.
    split; [|split; [apply sources_from_prefix|by left]].
    rewrite length_map. etrans; [apply List.filter_length_le|].
    rewrite length_firstn. lia. }
  subst summary. destruct (llm_client agent) as [client|]; [|exact Hheur].
  unfold _synthesize_with_llm.
  cbv zeta in Hheur.
  destruct (flatten search_results) as [|r0 rest] eqn:Hall; [exact Hheur|].
  destruct (llm_summary json_loads client (r0 :: rest)) as [s|] eqn:Hllm;
    [|exact Hheur].
  apply llm_summary_Some in Hllm as (_ & _ & _ & _ & _ & Hc & Hs & Hm).
  split; [exact Hc|]. rewrite Hs.
  split; [|split; [apply sources_from_prefix|by right]].
  rewrite length_map. etrans; [apply List.filter_length_le|].
  rewrite length_firstn. lia.
Qed.

(** [len(v)] exists. *)
Definition has_len (v : value) : bool :=
  match v with
  | VList _ | VDict _ | VStr _ => true
  | _ => false
  end.

(** X13: the model's answer is used. When the flattened results are not
    empty and the answer of the client, once out of its fence, parses to an
    object, [_synthesize_with_llm] returns a summary of method "llm" whose
    findings are the value of the object's [key_findings] key (the empty list
    when the key is missing), whose sources are those of the first 15
    flattened results that have a url, not those the model names, and whose
    source count is the number of flattened results. *)
Theorem llm_answer_used
    (client : LLMClient) (search_results : list (list SearchResult))
    (result_text : string) (d : list (string * value)) :
  flatten search_results <> [] ->
  client (build_prompt (flatten search_results)) = Content result_text ->
  json_loads (strip_fence result_text) = Some (VDict d) ->
  let s := _synthesize_with_llm json_loads client search_results in
  synthesis_method s = "llm" /\
  key_findings s
  = FromModel (match List.find (fun kv => String.eqb (fst kv) "key_findings") d with
               | Some kv => snd kv
               | None => VList []
               end) /\
  sources s
  = map source_entry (List.filter has_url (firstn 15 (flatten search_results))) /\
  source_count s = length (flatten search_results).
Proof.
  intros Hne Hclient Hjson. cbv zeta. unfold _synthesize_with_llm.
  destruct (flatten search_results) as [|r0 rest] eqn:Hall; [done|].
  unfold llm_summary. rewrite Hclient, Hjson. cbn. auto.
Qed.

(** A client that answers an object with one finding, in a fence. *)
Definition object_client : LLMClient :=
  fun _ => Content ("```json" +:+ Str.newline +:+ "{}" +:+ Str.newline +:+ "```").

End Modes.

Lemma summarize_nothing_witness :
  fst (summarize sample_json_loads (sample_agent failing_client) None [[]; []] "t1" "t2")
  = Some {| key_findings := Extracted [];
            source_count := 0;
            sources := [];
            synthesis_method := "heuristic_extraction";
            summary_text := None;
            themes := None;
            credibility_notes := None |}.
Proof.
  apply (summarize_nothing sample_json_loads (sample_agent failing_client) None [[]; []] "t1" "t2").
  reflexivity.
Defined.

Lemma llm_answer_used_witness :
  synthesis_method
    (_synthesize_with_llm sample_json_loads object_client [[hit 1 "A" "http://a"]])
  = "llm".
Proof.
  apply (llm_answer_used sample_json_loads object_client [[hit 1 "A" "http://a"]]
           ("```json" +:+ Str.newline +:+ "{}" +:+ Str.newline +:+ "```") []).
  - discriminate.
  - reflexivity.
  - reflexivity.
Defined.

Lemma summarize_summary_shape_witness :
  source_count (_synthesize_information [[hit 1 "A" "http://a"]]) = 1%nat.
Proof.
  apply (summarize_summary_shape sample_json_loads (sample_agent prose_client) None
           [[hit 1 "A" "http://a"]] "t1" "t2"
           (_synthesize_information [[hit 1 "A" "http://a"]])).
  reflexivity.
Defined.

(** X14: when [summarize] raises. Without a language-model client it never
    does. With one, it raises exactly when the flattened results are not
    empty, the answer parses to an object, and the value under
    [key_findings] has no length (null, a boolean, a number): the [len] of the
    second log entry is taken outside the [try]. *)
Theorem summarize_raises_iff
    (json_loads : string -> option value)
    (agent : t) (kg : option KnowledgeGraph.t)
    (search_results : list (list SearchResult)) (now1 now2 : string) :
  fst (summarize json_loads agent kg search_results now1 now2) = None <->
  exists client s v,
    llm_client agent = Some client /\
    flatten search_results <> [] /\
    llm_summary json_loads client (flatten search_results) = Some s /\
    key_findings s = FromModel v /\
    has_len v = false.
Proof.
  unfold summarize.
  destruct (_synthesize_information_fields search_results) as (Hf & _).
  destruct (llm_client agent) as [client|].
  - unfold _synthesize_with_llm.
    destruct (flatten search_results) as [|r0 rest] eqn:Hall.
    { unfold count_findings. rewrite Hf. cbn. split; [discriminate|].
      by intros (? & ? & ? & _ & ? & _). }
    destruct (llm_summary json_loads client (r0 :: rest)) as [s|] eqn:Hllm.
    + unfold count_findings.
      destruct (key_findings s) as [l|v] eqn:Hk.
      * cbn. split; [discriminate|].
        intros (c & s' & v & Hc & _ & Hs & Hk' & _).
        injection Hc as <-. rewrite Hllm in Hs. injection Hs as <-. congruence.
      * split.
        -- intros Hnone. exists client, s, v. repeat split; try done.
           by destruct v.
        -- intros (c & s' & v' & Hc & _ & Hs & Hk' & Hlen).
           injection Hc as <-. rewrite Hllm in Hs. injection Hs as <-.
           rewrite Hk in Hk'. injection Hk' as <-. by destruct v.
    + unfold count_findings. rewrite Hf. cbn. split; [discriminate|].
      intros (c & s' & v & Hc & _ & Hs & _).
      injection Hc as <-. rewrite Hllm in Hs. discriminate.
  - unfold count_findings. rewrite Hf. cbn. split; [discriminate|].
    intros (c & ? & ? & Hc & _). discriminate.
Qed.

(** *** Taking the answer out of its fence *)

Lemma first_piece_unlabelled body tail :
  Str.no_backtick body = true ->
  tail = "" \/ (exists rest, tail = "```" +:+ rest) ->
  nth 0 (Str.split "```" (body +:+ tail)) "" = body.
Proof.
  intros Hbody [->|[rest ->]].
  - rewrite Str.append_nil_r. by rewrite (Str.split_none "``" body Hbody).
  - by rewrite (Str.split_first "``" body rest Hbody).
Qed.

Lemma first_piece_labelled body post :
  Str.no_backtick body = true -> Str.no_backtick post = true ->
  exists tail,
    nth 0 (Str.split "```json" (body +:+ "```" +:+ post)) "" = body +:+ tail /\
    (tail = "" \/ exists rest, tail = "```" +:+ rest).
Proof.
  intros Hbody Hpost. unfold Str.split.
  rewrite (Str.split_from_walk "``json" body [] _ Hbody). rewrite app_nil_r.
  change ("```" +:+ post) with (String "`" (String "`" (String "`" post)))%char.
  cbn [Str.split_from].
  destruct (String.prefix "```json" (String "`" (String "`" (String "`" post)))%char).
  { exists "". rewrite Str.append_nil_r. split; [|by left].
    cbn [nth]. by rewrite rev_involutive, String.string_of_list_ascii_of_string. }
  assert (Hp2 : String.prefix "```json" (String "`" (String "`" post))%char = false).
  { cbn [String.prefix]. destruct post as [|p post]; [reflexivity|].
    cbn [String.prefix]. cbn [Str.no_backtick] in Hpost.
    destruct (ascii_dec "`"%char p) as [<-|]; [discriminate|reflexivity]. }
  assert (Hp1 : String.prefix "```json" (String "`" post)%char = false).
  { cbn [String.prefix]. destruct post as [|p post]; [reflexivity|].
    cbn [String.prefix]. cbn [Str.no_backtick] in Hpost.
    destruct (ascii_dec "`"%char p) as [<-|]; [discriminate|reflexivity]. }
  rewrite Hp2, Hp1.
  rewrite (Str.split_from_walk_end "``json" post _ Hpost). cbn [nth].
  exists ("```" +:+ post). split; [|right; by exists post].
  rewrite Str.string_of_rev_walk. cbn [rev].
  rewrite !Str.string_of_list_ascii_app, rev_involutive.
  rewrite String.string_of_list_ascii_of_string.
  cbn [String.string_of_list_ascii].
  generalize body post. clear. intros body post.
  induction body as [|c body IH]; [reflexivity|].
  rewrite !Str.append_cons. by rewrite IH.
Qed.

(** X15: a fenced answer. When the answer holds a block opened by
    [```json] and closed by [```], and there is no backtick before, inside or
    after the block, [strip_fence] returns the text inside the block without
    the white space around it. *)
Theorem strip_fence_labelled (pre body post : string) :
  Str.no_backtick pre = true ->
  Str.no_backtick body = true ->
  Str.no_backtick post = true ->
  strip_fence (pre +:+ "```json" +:+ body +:+ "```" +:+ post) = Str.strip body.
Proof.
  intros Hpre Hbody Hpost. unfold strip_fence.
  rewrite (Str.contains_app "```json" pre _ (Str.prefix_app "```json" _)).
  rewrite (Str.split_first "``json" pre _ Hpre).
  change (nth 1 (pre :: ?l) "") with (nth 0 l "").
  destruct (first_piece_labelled body post Hbody Hpost) as (tail & -> & Htail).
  by rewrite (first_piece_unlabelled body tail Hbody Htail).
Qed.

Lemma strip_fence_labelled_witness :
  strip_fence ("Here it is:" +:+ Str.newline +:+ "```json" +:+ Str.newline
               +:+ "[1]" +:+ Str.newline +:+ "```" +:+ Str.newline +:+ "Bye")
  = "[1]".
Proof.
  apply (strip_fence_labelled ("Here it is:" +:+ Str.newline)
           (Str.newline +:+ "[1]" +:+ Str.newline) (Str.newline +:+ "Bye"));
    reflexivity.
Defined.

(** X16: an answer without a fence. A text that holds no [```] is handed
    to the parser as it is, with the white space around it. *)
Theorem strip_fence_plain (result_text : string) :
  Str.contains "```" result_text = false -> strip_fence result_text = result_text.
Proof.
  intros Hplain. unfold strip_fence. rewrite Hplain.
  destruct (Str.contains "```json" result_text) eqn:Hlabel; [|reflexivity].
  apply (Str.contains_weaken "```" "json") in Hlabel. congruence.
Qed.

Lemma strip_fence_plain_witness : strip_fence "  [1] " = "  [1] ".
Proof. apply strip_fence_plain. reflexivity. Defined.

(** A closing fence followed by a backtick and [json]: the second piece of
    the split ends one backtick late, and the text handed to the parser keeps
    that backtick. *)
Example strip_fence_four_backticks :
  strip_fence ("```json" +:+ "[1]" +:+ "```" +:+ "`json") = "[1]`".
Proof. reflexivity. Qed.

End Summarizer.


(** ** Semantic memory: [storage/vector_memory] ([storage/memory.py])

    The floats are binary64. What [np.dot] and [np.linalg.norm] return is an
    input, like the built-in [hash]: the library decides in which order the
    products are added. *)

Module VectorMemory.

(** A stored vector: a list of floats. *)
Abbreviation vector := (list PrimFloat.float).

(** A metadata dict. *)
Abbreviation Meta := (gmap string value).

(** The object: [self.vectors] and [self.metadata]. *)
Record t := mkVectorMemory {
  vectors : list vector;
  metadata : list Meta
}.

(** [vectors.json]: missing, not readable as a JSON object, or an object
    whose two keys may each be absent. *)
Record Document := mkDocument {
  doc_vectors : option (list vector);
  doc_metadata : option (list Meta)
}.

Inductive File :=
| Missing
| Unreadable
| Holds (data : Document).

(** One entry of the list [search] returns: the copy of the metadata dict
    with its [similarity_score] key set. *)
Record Hit := mkHit {
  hit_record : Meta;
  similarity_score : PrimFloat.float
}.

(** [str.lower] on one character. *)
Definition lower_char (c : ascii) : ascii :=
  let n := nat_of_ascii c in
  if ((65 <=? n) && (n <=? 90) || (192 <=? n) && (n <=? 222) && negb (n =? 215))%nat
  then ascii_of_nat (n + 32)
  else c.

Fixpoint lower (s : string) : string :=
  match s with
  | EmptyString => EmptyString
  | String c rest => String (lower_char c) (lower rest)
  end.

(** [ord(char) / 256.0] *)
Definition code (char : ascii) : PrimFloat.float :=
  PrimFloat.div (PrimFloat.of_uint63 (Uint63Axioms.of_Z (Z.of_nat (nat_of_ascii char))))
                256%float.

(** The loop [for i, char in enumerate(text[:128]): embedding[i] = ...]. *)
Fixpoint fill (i : nat) (chars : list ascii) (embedding : vector) : vector :=
  match chars with
  | [] => embedding
  | char :: rest => fill (S i) rest (<[i := code char]> embedding)
  end.

(** The order of [similarities.sort(key=lambda x: x[1], reverse=True)]:
    larger scores first. The comparison is that of binary64, in which a NaN
    is neither below nor above anything; the stable sort is the model of
    [list.sort] for scores that are numbers. *)
Definition score_geb (a b : PrimFloat.float) : bool := PrimFloat.leb b a.

(** [x == x]: false for a NaN only. *)
Definition is_number (x : PrimFloat.float) : bool := PrimFloat.eqb x x.

Section Process.
(** [np.dot] on two arrays of one length and [np.linalg.norm]: in which
    order the library adds the products is not the program's. *)
Variable np_dot : vector -> vector -> PrimFloat.float.
Variable np_norm : vector -> PrimFloat.float.
(** The built-in [hash] of the process. *)
Variable hash : string -> Z.

(** The formula of [_cosine_similarity]. *)
Definition cosine_value (vec1 vec2 : vector) : PrimFloat.float :=
  let dot_product := np_dot vec1 vec2 in
  let norm1 := np_norm vec1 in
  let norm2 := np_norm vec2 in
  if PrimFloat.eqb norm1 0%float then 0%float
  else if PrimFloat.eqb norm2 0%float then 0%float
  else PrimFloat.div dot_product (PrimFloat.mul norm1 norm2).

(** [_cosine_similarity]: [np.dot] raises ([None]) on two arrays of
    different lengths. *)
Definition _cosine_similarity (vec1 vec2 : vector) : option PrimFloat.float :=
  if Nat.eqb (length vec1) (length vec2) then Some (cosine_value vec1 vec2) else None.

(** The embedding before it is normalized. *)
Definition marked_embedding (text : string) : vector :=
  let text := lower text in
  let embedding := replicate 128 0%float in
  let embedding := fill 0 (firstn 128 (String.list_ascii_of_string text)) embedding in
  let text_hash := Z.to_nat (hash text `mod` 128)%Z in
  <[text_hash := 1%float]> embedding.

Definition _simple_embedding (text : string) : vector :=
  let embedding := marked_embedding text in
  let norm := np_norm embedding in
  if PrimFloat.ltb 0%float norm
  then map (fun x => PrimFloat.div x norm) embedding
  else embedding.

(** The dict that [store] appends: the keys of the caller's metadata come
    last in the display and win. *)
Definition stored_record (text : string) (meta : Meta) : Meta :=
  meta ∪ <["text" := VStr text]>
           (<["embedding_dim" := VInt (Z.of_nat (length (_simple_embedding text)))]> ∅).

(** [store], before [_save]. *)
Definition store (vm : t) (text : string) (meta : Meta) : t :=
  let vector := _simple_embedding text in
  {| vectors := vectors vm ++ [vector];
     metadata := metadata vm ++ [stored_record text meta] |}.

(** [similarities] of [search], before the sort: [None] when a comparison
    raises. *)
Definition similarities (vm : t) (query : string)
  : option (list (nat * PrimFloat.float)) :=
  let query_vector := _simple_embedding query in
  mapM (fun '(idx, stored_vector) =>
          similarity ← _cosine_similarity query_vector stored_vector;
          Some (idx, similarity))
       (enumerate (vectors vm)).

(** [search]: the results, or [None] when the call raises; the store itself
    is returned as the call leaves it (each result is a copy of the stored
    dict, so setting its score does not write to the store). *)
Definition search (vm : t) (query : string) (top_k : Z) : option (list Hit) * t :=
  match vectors vm with
  | [] => (Some [], vm)
  | _ :: _ =>
      (similarities ← similarities vm query;
       let sorted := sort_by_key snd score_geb similarities in
       mapM (fun '(idx, score) =>
               result ← metadata vm !! idx;
               Some {| hit_record := result; similarity_score := score |})
            (slice_to sorted top_k),
       vm)
  end.

(** [_save]: what the file holds after a write that succeeds. *)
Definition saved (vm : t) : File :=
  Holds {| doc_vectors := Some (vectors vm); doc_metadata := Some (metadata vm) |}.

(** [_load]: a missing or unreadable file leaves the store as it is. *)
Definition _load (vm : t) (file : File) : t :=
  match file with
  | Holds data =>
      {| vectors := get (doc_vectors data) [];
         metadata := get (doc_metadata data) [] |}
  | Missing | Unreadable => vm
  end.

(** [__init__] *)
Definition init (file : File) : t := _load {| vectors := []; metadata := [] |} file.

(** How a [_save] ends: the write succeeds, or it fails and leaves the file
    untouched or damaged. *)
Inductive SaveOutcome :=
| Saved
| FailedUntouched
| FailedDamaged.

(** The operations on a store and its file. *)
Inductive op :=
| Store (text : string) (meta : Meta) (outcome : SaveOutcome)
| Search (query : string) (top_k : Z)
| Load.

Definition step (s : t * File) (o : op) : t * File :=
  let '(vm, file) := s in
  match o with
  | Store text meta outcome =>
      let vm' := store vm text meta in
      (vm', match outcome with
            | Saved => saved vm'
            | FailedUntouched => file
            | FailedDamaged => Unreadable
            end)
  | Search query top_k => (snd (search vm query top_k), file)
  | Load => (_load vm file, file)
  end.

Definition run (s : t * File) (ops : list op) : t * File := foldl step s ops.



End Process.


(** *** The size of an embedding *)

Lemma fill_length chars : forall i embedding,
  length (fill i chars embedding) = length embedding.
Proof.
  induction chars as [|c chars IH]; intros i embedding; cbn; [reflexivity|].
  by rewrite IH, length_insert.
Qed.

Section Embedding.
Variable np_norm : vector -> PrimFloat.float.
Variable hash : string -> Z.

Lemma marked_embedding_length text : length (marked_embedding hash text) = 128%nat.
Proof.
  unfold marked_embedding. by rewrite length_insert, fill_length, length_replicate.
Qed.

Lemma _simple_embedding_length text :
  length (_simple_embedding np_norm hash text) = 128%nat.
Proof.
  unfold _simple_embedding.
  destruct (PrimFloat.ltb _ _); rewrite ?length_map; apply marked_embedding_length.
Qed.

End Embedding.

(** *** The invariant of the store *)

Section Invariant.
Variable np_dot : vector -> vector -> PrimFloat.float.
Variable np_norm : vector -> PrimFloat.float.
Variable hash : string -> Z.

(** [search] leaves the store as it found it. *)
Lemma search_keeps_store vm query top_k :
  snd (search np_dot np_norm hash vm query top_k) = vm.
Proof. unfold search. by destruct (vectors vm). Qed.






End Invariant.

(** A hash for the examples: the length of the text. *)
Definition length_hash (text : string) : Z := Z.of_nat (String.length text).

(** [np.dot] when the products are added in the order of the indices, and
    [np.linalg.norm] as the square root of the dot product of the array with
    itself; the operations are those of binary64. *)
Definition seq_dot (a b : vector) : PrimFloat.float :=
  foldl (fun acc xy => PrimFloat.add acc (PrimFloat.mul xy.1 xy.2)) 0%float (zip a b).

Definition seq_norm (v : vector) : PrimFloat.float := PrimFloat.sqrt (seq_dot v v).



(** *** The order of the scores *)

Lemma SFcompare_refl f : f <> S754_nan -> SFcompare f f = Some Eq.
Proof.
  destruct f as [s|s| |s m e]; intros H; try done; cbn.
  - by destruct s.
  - rewrite Z.compare_refl, Pos.compare_cont_refl. by destruct s.
Qed.

Lemma is_number_spec x : is_number x = true <-> Prim2SF x <> S754_nan.
Proof.
  unfold is_number. rewrite FloatAxioms.eqb_spec. unfold SFeqb. split.
  - intros H Hn. rewrite Hn in H. discriminate.
  - intros H. by rewrite SFcompare_refl.
Qed.

Ltac fold_compare :=
  repeat match goal with
  | |- context [PosDef.Pos.compare_cont Eq ?a ?b] =>
      change (PosDef.Pos.compare_cont Eq a b) with (Pos.compare a b)
  end.

Ltac compare_cases :=
  repeat match goal with
  | |- context [(?a ?= ?b)%Z] =>
      let H := fresh "Hz" in destruct (Z.compare_spec a b) as [H|H|H]
  | |- context [(?a ?= ?b)%positive] =>
      let H := fresh "Hp" in destruct (Pos.compare_spec a b) as [H|H|H]
  end.

Lemma leb_number x y :
  PrimFloat.leb x y = true -> is_number x = true /\ is_number y = true.
Proof.
  rewrite FloatAxioms.leb_spec, !is_number_spec. unfold SFleb.
  destruct (Prim2SF x), (Prim2SF y); cbn; try discriminate; done.
Qed.

Lemma leb_total x y :
  is_number x = true -> is_number y = true ->
  PrimFloat.leb x y = true \/ PrimFloat.leb y x = true.
Proof.
  rewrite !is_number_spec, !FloatAxioms.leb_spec. unfold SFleb.
  destruct (Prim2SF x) as [s1|s1| |s1 m1 e1], (Prim2SF y) as [s2|s2| |s2 m2 e2];
    intros H1 H2; try done; cbn; fold_compare;
    try destruct s1; try destruct s2; auto;
    compare_cases; cbn; auto; lia.
Qed.

Lemma leb_trans x y z :
  PrimFloat.leb x y = true -> PrimFloat.leb y z = true -> PrimFloat.leb x z = true.
Proof.
  rewrite !FloatAxioms.leb_spec. unfold SFleb.
  destruct (Prim2SF x) as [s1|s1| |s1 m1 e1], (Prim2SF y) as [s2|s2| |s2 m2 e2],
    (Prim2SF z) as [s3|s3| |s3 m3 e3]; cbn; fold_compare; try done;
    try destruct s1; try destruct s2; try destruct s3; cbn; try done;
    compare_cases; cbn; try done; lia.
Qed.

(** The order of the sort made total: a NaN goes below everything. On
    numbers it is [score_geb]. *)
Definition number_geb (a b : PrimFloat.float) : bool :=
  score_geb a b || negb (is_number b).

Lemma number_geb_total a b : number_geb a b = true \/ number_geb b a = true.
Proof.
  unfold number_geb, score_geb.
  destruct (is_number a) eqn:Ha; [|right; apply orb_true_r].
  destruct (is_number b) eqn:Hb; [|left; apply orb_true_r].
  destruct (leb_total a b Ha Hb) as [H|H]; rewrite H; auto.
Qed.

Lemma number_geb_trans a b c :
  number_geb a b = true -> number_geb b c = true -> number_geb a c = true.
Proof.
  unfold number_geb, score_geb. intros Hab Hbc.
  destruct (is_number c) eqn:Hc; [|apply orb_true_r].
  rewrite orb_false_r in Hbc |- *.
  destruct (leb_number _ _ Hbc) as [_ Hb]. rewrite Hb, orb_false_r in Hab.
  by apply (leb_trans c b a).
Qed.

Lemma number_geb_number a b :
  is_number b = true -> number_geb a b = score_geb a b.
Proof. intros Hb. unfold number_geb. rewrite Hb. apply orb_false_r. Qed.

(** The stored vectors can be compared with an embedding, and each has its
    metadata. *)
Definition well_formed (vm : t) : Prop :=
  Forall (fun v : vector => length v = 128%nat) (vectors vm) /\
  length (metadata vm) = length (vectors vm).

Section Ranking.
Variable np_dot : vector -> vector -> PrimFloat.float.
Variable np_norm : vector -> PrimFloat.float.
Variable hash : string -> Z.

(** The scores of the stored vectors, in the order in which they are
    stored. *)
Definition scores (vm : t) (query : string) : list (nat * PrimFloat.float) :=
  map (fun entry : nat * vector =>
         (entry.1, cosine_value np_dot np_norm (_simple_embedding np_norm hash query)
                     entry.2))
      (enumerate (vectors vm)).

Definition ranked (vm : t) (query : string) : list (nat * PrimFloat.float) :=
  sort_by_key snd score_geb (scores vm query).

Definition hit_at (vm : t) (entry : nat * PrimFloat.float) : Hit :=
  {| hit_record := default ∅ (metadata vm !! entry.1);
     similarity_score := entry.2 |}.

(** No score of the query against a stored vector is a NaN. *)
Definition numbers (vm : t) (query : string) : bool :=
  forallb (fun entry : nat * PrimFloat.float => is_number entry.2) (scores vm query).

Lemma similarities_from query (vs : list vector) : forall i,
  Forall (fun v : vector => length v = 128%nat) vs ->
  mapM (fun '(idx, stored_vector) =>
          similarity ← _cosine_similarity np_dot np_norm
                         (_simple_embedding np_norm hash query) stored_vector;
          Some (idx, similarity))
       (enumerate_from i vs)
  = Some (map (fun entry : nat * vector =>
                 (entry.1, cosine_value np_dot np_norm
                             (_simple_embedding np_norm hash query) entry.2))
              (enumerate_from i vs)).
Proof.
  intros i Hvs. apply mapM_Some.
  apply Forall2_fmap_r, Forall_Forall2_diag, Forall_forall.
  intros [idx v] (j & Hj)%list_elem_of_lookup. cbn.
  rewrite enumerate_from_lookup in Hj.
  destruct (vs !! j) as [v'|] eqn:Hv; [|discriminate]. injection Hj as <- <-.
  rewrite Forall_lookup in Hvs. specialize (Hvs _ _ Hv). cbn in Hvs.
  unfold _cosine_similarity. by rewrite _simple_embedding_length, Hvs, Nat.eqb_refl.
Qed.

Lemma similarities_value vm query :
  well_formed vm -> similarities np_dot np_norm hash vm query = Some (scores vm query).
Proof. intros [Hvs _]. by apply similarities_from. Qed.

Lemma scores_lookup vm query j i score :
  scores vm query !! j = Some (i, score) ->
  i = j /\ exists v, vectors vm !! j = Some v /\
                     score = cosine_value np_dot np_norm
                               (_simple_embedding np_norm hash query) v.
Proof.
  unfold scores, enumerate. rewrite list_lookup_fmap, enumerate_from_lookup.
  destruct (vectors vm !! j) as [v|]; cbn; [|discriminate].
  intros [= <- <-]. eauto.
Qed.

Lemma scores_lookup_vector vm query j v :
  vectors vm !! j = Some v ->
  scores vm query !! j
  = Some (j, cosine_value np_dot np_norm (_simple_embedding np_norm hash query) v).
Proof.
  intros Hv. unfold scores, enumerate.
  by rewrite list_lookup_fmap, enumerate_from_lookup, Hv.
Qed.

Lemma scores_length vm query : length (scores vm query) = length (vectors vm).
Proof. unfold scores, enumerate. by rewrite length_map, Search.enumerate_from_length. Qed.

Lemma scores_index vm query entry :
  In entry (scores vm query) ->
  exists v, vectors vm !! entry.1 = Some v /\
            entry.2 = cosine_value np_dot np_norm
                        (_simple_embedding np_norm hash query) v.
Proof.
  intros (j & Hj)%list_elem_of_In%list_elem_of_lookup. destruct entry as [i score].
  apply scores_lookup in Hj as (-> & v & Hv & ->). cbn. eauto.
Qed.

Lemma ranked_index vm query entry :
  In entry (ranked vm query) ->
  exists v, vectors vm !! entry.1 = Some v /\
            entry.2 = cosine_value np_dot np_norm
                        (_simple_embedding np_norm hash query) v.
Proof.
  intros Hin. apply scores_index.
  exact (Permutation_in _ (sort_by_key_perm snd score_geb (scores vm query)) Hin).
Qed.

Lemma numbers_In vm query entry :
  numbers vm query = true -> In entry (scores vm query) -> is_number entry.2 = true.
Proof.
  unfold numbers. rewrite forallb_forall. intros Hall Hin. by apply Hall.
Qed.

(** What [search] returns on a well-formed store: it does not raise. *)
Lemma search_total vm query top_k :
  well_formed vm ->
  fst (search np_dot np_norm hash vm query top_k)
  = Some (map (hit_at vm) (slice_to (ranked vm query) top_k)).
Proof.
  intros Hwf. unfold search.
  destruct (vectors vm) as [|v0 vs] eqn:Hvs.
  { unfold ranked, scores. rewrite Hvs. cbn.
    unfold slice_to. destruct (0 <=? top_k)%Z; by rewrite firstn_nil. }
  cbn [fst]. rewrite similarities_value by done. cbn [mbind option_bind].
  fold (ranked vm query).
  apply mapM_Some. apply Forall2_fmap_r, Forall_Forall2_diag, Forall_forall.
  intros [i score] Hin. cbn.
  assert (Hi : (i < length (metadata vm))%nat).
  { destruct (slice_to_prefix (ranked vm query) top_k) as [cut Hcut].
    assert (Hranked : In (i, score) (ranked vm query)).
    { rewrite Hcut. apply in_or_app. left. by apply list_elem_of_In. }
    apply ranked_index in Hranked as (v & Hv & _). cbn in Hv.
    destruct Hwf as [_ ->]. by apply lookup_lt_Some in Hv. }
  apply lookup_lt_is_Some in Hi as [m Hm]. rewrite Hm.
  unfold hit_at. cbn. by rewrite Hm.
Qed.

Lemma store_well_formed vm text meta :
  well_formed vm -> well_formed (store np_norm hash vm text meta).
Proof.
  intros [Hvs Hlen]. split; cbn.
  - apply Forall_app. split; [exact Hvs|].
    constructor; [apply _simple_embedding_length|constructor].
  - rewrite !length_app. cbn. lia.
Qed.

(** When the scores are numbers, the sort is that of the total order. *)
Lemma ranked_numbers vm query :
  numbers vm query = true ->
  ranked vm query = sort_by_key snd number_geb (scores vm query).
Proof.
  intros Hn. unfold ranked. apply sort_by_key_ext.
  intros a b _ Hb. symmetry. apply number_geb_number.
  by apply (numbers_In vm query).
Qed.

(** The entries whose score compares equal to [score]. *)
Definition ties (score : PrimFloat.float) (entry : nat * PrimFloat.float) : bool :=
  number_geb entry.2 score && number_geb score entry.2.

(** The head of the ranking: it has a highest score, and it is the first
    of the entries of that score in the order of storage. *)
Lemma ranked_first vm query :
  vectors vm <> [] -> numbers vm query = true ->
  exists i score t before after,
    ranked vm query = (i, score) :: t /\
    scores vm query = before ++ (i, score) :: after /\
    Forall (fun entry => score_geb score entry.2 = true) (scores vm query) /\
    Forall (fun entry => score_geb entry.2 score = false) before.
Proof.
  intros Hne Hn.
  destruct (sort_by_key snd number_geb (scores vm query)) as [|[i score] t] eqn:Hsorted.
  { apply (f_equal length) in Hsorted.
    rewrite sort_by_key_length, scores_length in Hsorted.
    by destruct (vectors vm). }
  pose proof (sort_by_key_head snd number_geb (scores vm query) (i, score) t
                number_geb_total number_geb_trans Hsorted) as Hhead.
  cbn [snd] in Hhead.
  assert (Htop : Forall (fun entry => score_geb score entry.2 = true) (scores vm query)).
  { rewrite Forall_forall in Hhead |- *. intros entry Hin.
    rewrite <- number_geb_number; [by apply Hhead|].
    by apply (numbers_In vm query), list_elem_of_In. }
  assert (Hfilter : List.filter (ties score) (sort_by_key snd number_geb (scores vm query))
                    = List.filter (ties score) (scores vm query)).
  { apply sort_by_key_filter. intros a b [Ha _]%andb_prop [_ Hb]%andb_prop.
    by apply (number_geb_trans _ score). }
  rewrite Hsorted in Hfilter. cbn [List.filter] in Hfilter.
  assert (Hself : ties score (i, score) = true).
  { unfold ties. cbn [snd].
    by destruct (number_geb_total score score) as [H|H]; rewrite H. }
  rewrite Hself in Hfilter. symmetry in Hfilter.
  apply filter_first in Hfilter as (before & after & Hsplit & _ & Hbefore).
  exists i, score, t, before, after.
  split; [by rewrite ranked_numbers|]. split; [exact Hsplit|]. split; [exact Htop|].
  rewrite Forall_forall in Hbefore, Htop |- *. intros entry Hin.
  specialize (Hbefore entry Hin). unfold ties in Hbefore.
  assert (Hentry : entry ∈ scores vm query).
  { rewrite Hsplit. apply elem_of_app. by left. }
  assert (Hscore : is_number score = true).
  { apply (numbers_In vm query (i, score) Hn), list_elem_of_In. rewrite Hsplit.
    apply elem_of_app. right. by left. }
  rewrite (number_geb_number entry.2 score Hscore) in Hbefore.
  rewrite (number_geb_number score entry.2) in Hbefore
    by by apply (numbers_In vm query), list_elem_of_In.
  rewrite (Htop entry Hentry), andb_true_r in Hbefore. exact Hbefore.
Qed.

(** The first result of a search that asks for one result at least. *)
Lemma search_first vm query top_k :
  well_formed vm -> vectors vm <> [] -> numbers vm query = true -> (1 <= top_k)%Z ->
  let score := cosine_value np_dot np_norm (_simple_embedding np_norm hash query) in
  exists first rest i v,
    fst (search np_dot np_norm hash vm query top_k) = Some (first :: rest) /\
    vectors vm !! i = Some v /\
    metadata vm !! i = Some (hit_record first) /\
    similarity_score first = score v /\
    (forall w, In w (vectors vm) -> PrimFloat.leb (score w) (score v) = true) /\
    (forall j w, (j < i)%nat -> vectors vm !! j = Some w ->
                 PrimFloat.leb (score v) (score w) = false).
Proof.
  intros Hwf Hne Hn Hk score.
  destruct (ranked_first vm query Hne Hn)
    as (i & top & t & before & after & Hranked & Hsplit & Htop & Hbefore).
  assert (Hi : scores vm query !! length before = Some (i, top)).
  { rewrite Hsplit. by rewrite list_lookup_middle. }
  apply scores_lookup in Hi as (-> & v & Hv & ->).
  fold score in Hranked, Hsplit, Htop, Hbefore.
  assert (Hm : exists m, metadata vm !! length before = Some m).
  { apply lookup_lt_is_Some. destruct Hwf as [_ ->]. by apply lookup_lt_Some in Hv. }
  destruct Hm as [m Hm].
  exists (hit_at vm (length before, score v)),
         (map (hit_at vm) (firstn (Z.to_nat top_k - 1) t)), (length before), v.
  split.
  { rewrite search_total by exact Hwf. rewrite Hranked. unfold slice_to.
    destruct (Z.leb_spec 0 top_k); [|lia].
    destruct (Z.to_nat top_k) as [|n] eqn:Hn'; [lia|].
    cbn. by rewrite Nat.sub_0_r. }
  split; [exact Hv|]. split.
  { unfold hit_at. cbn [hit_record fst]. by rewrite Hm. }
  split; [reflexivity|]. split.
  - intros w (j & Hj)%list_elem_of_In%list_elem_of_lookup.
    apply (scores_lookup_vector vm query) in Hj.
    rewrite Forall_forall in Htop.
    exact (Htop _ (list_elem_of_lookup_2 _ _ _ Hj)).
  - intros j w Hj Hw.
    apply (scores_lookup_vector vm query) in Hw.
    rewrite Hsplit, lookup_app_l in Hw by exact Hj.
    rewrite Forall_lookup in Hbefore. exact (Hbefore _ _ Hw).
Qed.


End Ranking.

(** *** The same text stored twice *)

Definition first_meta : Meta := {["timestamp" := VStr "t1"]}.

(** A store that holds one earlier record of the text "rust". *)
Definition one_record : t := store seq_norm length_hash (init Missing) "rust" first_meta.





(** *** What [search] returns *)

(** [get_stats]: [file_size] is the size of [vectors.json] in bytes (below
    2^63), when the file exists; without the file the size reported is the
    integer 0. *)
Record Stats := mkStats {
  total_vectors : nat;
  embedding_dimension : nat;
  storage_size_kb : value
}.

Definition get_stats (vm : t) (file_size : option nat) : Stats :=
  {| total_vectors := length (vectors vm);
     embedding_dimension := match vectors vm with
                            | v :: _ => length v
                            | [] => 0%nat
                            end;
     storage_size_kb :=
       match file_size with
       | Some n =>
           VFloat (PrimFloat.div (PrimFloat.of_uint63 (Uint63Axioms.of_Z (Z.of_nat n)))
                                 1024%float)
       | None => VInt 0
       end |}.

(** A store and a file that [search] and [_load] can work with: every
    vector has 128 components and every vector has its metadata. *)
Definition sound (s : t * File) : Prop :=
  well_formed s.1 /\
  match s.2 with
  | Holds data =>
      well_formed {| vectors := get (doc_vectors data) [];
                     metadata := get (doc_metadata data) [] |}
  | Missing | Unreadable => True
  end.

Lemma StronglySorted_map {A B} (R : A -> A -> Prop) (S : B -> B -> Prop)
    (f : A -> B) (l : list A) :
  (forall a b, R a b -> S (f a) (f b)) ->
  StronglySorted R l -> StronglySorted S (map f l).
Proof.
  intros Hf. induction 1 as [|x l Hl IH Hx]; cbn; constructor; [exact IH|].
  apply Forall_fmap. eapply Forall_impl; [exact Hx|]. intros y Hy. cbn. auto.
Qed.

(** On numbers a list sorted by the total order is sorted by the order of
    the floats. *)
Lemma StronglySorted_numbers (l : list (nat * PrimFloat.float)) :
  Forall (fun entry => is_number entry.2 = true) l ->
  StronglySorted (key_le snd number_geb) l ->
  StronglySorted (key_le snd score_geb) l.
Proof.
  intros Hnum. induction 1 as [|x l Hl IH Hx]; constructor.
  - apply IH. by apply Forall_cons in Hnum as [_ Hnum].
  - apply Forall_cons in Hnum as [_ Hnum].
    rewrite Forall_forall in Hx, Hnum |- *. intros y Hy.
    specialize (Hx y Hy). unfold key_le in *.
    by rewrite number_geb_number in Hx by by apply Hnum.
Qed.

Lemma slice_to_nonneg_length {A} (l : list A) (k : Z) :
  (0 <= k)%Z -> length (slice_to l k) = Nat.min (Z.to_nat k) (length l).
Proof.
  intros Hk. unfold slice_to. destruct (Z.leb_spec 0 k); [|lia].
  apply length_firstn.
Qed.

Section Results.
Variable np_dot : vector -> vector -> PrimFloat.float.
Variable np_norm : vector -> PrimFloat.float.
Variable hash : string -> Z.

(** X19: the answer of [search]. On a well-formed store and for a
    [top_k] that is not negative, [search] returns [min(top_k, n)] results for
    [n] stored vectors (none for an empty store); every result is the record
    of a stored entry, with the score of the query against the vector of that
    entry; when no score is a NaN the results are in descending order of
    score. *)
Theorem search_results_shape (vm : t) (query : string) (top_k : Z) :
  well_formed vm -> (0 <= top_k)%Z ->
  exists hits,
    fst (search np_dot np_norm hash vm query top_k) = Some hits /\
    length hits = Nat.min (Z.to_nat top_k) (length (vectors vm)) /\
    Forall (fun h =>
              exists i v,
                vectors vm !! i = Some v /\
                metadata vm !! i = Some (hit_record h) /\
                similarity_score h
                = cosine_value np_dot np_norm (_simple_embedding np_norm hash query) v)
           hits /\
    (numbers np_dot np_norm hash vm query = true ->
     StronglySorted
       (fun h1 h2 => PrimFloat.leb (similarity_score h2) (similarity_score h1) = true)
       hits).
Proof.
  intros Hwf Hk. eexists. split; [by apply search_total|].
  destruct (slice_to_prefix (ranked np_dot np_norm hash vm query) top_k) as [cut Hcut].
  split; [|split].
  - rewrite length_map, slice_to_nonneg_length by exact Hk.
    unfold ranked. by rewrite sort_by_key_length, scores_length.
  - apply Forall_fmap, Forall_forall. intros entry Hin%list_elem_of_In. cbn.
    assert (Hranked : In entry (ranked np_dot np_norm hash vm query)).
    { rewrite Hcut. apply in_or_app. by left. }
    apply ranked_index in Hranked as (v & Hv & Hscore).
    assert (Hlt : (entry.1 < length (metadata vm))%nat).
    { destruct Hwf as [_ ->]. by apply lookup_lt_Some in Hv. }
    apply lookup_lt_is_Some in Hlt as [m Hm].
    exists entry.1, v. rewrite Hm. cbn. by repeat split.
  - intros Hn.
    apply (StronglySorted_map (key_le snd score_geb)).
    { intros a b Hab. exact Hab. }
    apply StronglySorted_prefix with (l2 := cut). rewrite <- Hcut.
    apply StronglySorted_numbers.
    + apply Forall_forall. intros entry Hin%list_elem_of_In.
      apply (numbers_In np_dot np_norm hash vm query); [exact Hn|].
      exact (Permutation_in _ (sort_by_key_perm snd score_geb _) Hin).
    + rewrite ranked_numbers by exact Hn.
      apply sort_by_key_sorted; [apply number_geb_total|apply number_geb_trans].
Qed.

(** X20: a vector of another size. When the store is not empty and one of
    its vectors does not have 128 components (a file written by something
    else was loaded), [search] raises: [np.dot] refuses the two shapes. *)
Theorem search_raises_on_other_size (vm : t) (query : string) (top_k : Z) :
  Exists (fun v : vector => length v <> 128%nat) (vectors vm) ->
  fst (search np_dot np_norm hash vm query top_k) = None.
Proof.
  intros Hbad. unfold search.
  destruct (vectors vm) as [|v0 vs] eqn:Hvs; [by apply Exists_nil in Hbad|].
  cbn [fst].
  assert (Hnone : similarities np_dot np_norm hash vm query = None).
  { unfold similarities. apply mapM_None. rewrite Hvs.
    apply Exists_exists in Hbad as (v & Hv & Hlen).
    apply list_elem_of_lookup in Hv as [j Hj].
    apply Exists_exists. exists (j, v). split.
    - apply list_elem_of_lookup. exists j. unfold enumerate.
      by rewrite enumerate_from_lookup, Hj.
    - unfold _cosine_similarity. rewrite _simple_embedding_length.
      destruct (Nat.eqb_spec 128 (length v)); [congruence|reflexivity]. }
  by rewrite Hnone.
Qed.

(** X21: finding a stored text again. Two texts that differ in the case of
    their letters only have the same embedding, the hash being taken of the
    lower-cased text, so a search for either gives the same answer on any
    store; and on a well-formed store, after [store(text1, meta)], a
    [search(text2, top_k)] with [top_k] at least 1 and without a NaN among
    the scores returns a first result whose score is not below the score of
    the record of [text1], the similarity of the common embedding with
    itself. *)
Theorem search_ignores_case (vm : t) (text1 text2 : string) (meta : Meta) (top_k : Z) :
  well_formed vm -> lower text1 = lower text2 -> (1 <= top_k)%Z ->
  numbers np_dot np_norm hash (store np_norm hash vm text1 meta) text2 = true ->
  let embedding := _simple_embedding np_norm hash text2 in
  _simple_embedding np_norm hash text1 = embedding /\
  (forall vm0 k, search np_dot np_norm hash vm0 text1 k
                 = search np_dot np_norm hash vm0 text2 k) /\
  exists first rest,
    fst (search np_dot np_norm hash (store np_norm hash vm text1 meta) text2 top_k)
    = Some (first :: rest) /\
    PrimFloat.leb (cosine_value np_dot np_norm embedding embedding)
                  (similarity_score first) = true.
Proof.
  intros Hwf Hlower Hk Hn. cbv zeta.
  assert (Hemb : _simple_embedding np_norm hash text1 = _simple_embedding np_norm hash text2).
  { unfold _simple_embedding, marked_embedding. by rewrite Hlower. }
  split; [exact Hemb|]. split.
  { intros vm0 k. unfold search, similarities. by rewrite Hemb. }
  pose proof (store_well_formed np_norm hash vm text1 meta Hwf) as Hwf'.
  assert (Hne : vectors (store np_norm hash vm text1 meta) <> []).
  { cbn. by destruct (vectors vm). }
  destruct (search_first np_dot np_norm hash _ text2 top_k Hwf' Hne Hn Hk)
    as (first & rest & i & v & Hsearch & _ & _ & Hscore & Htop & _).
  exists first, rest. split; [exact Hsearch|]. rewrite Hscore.
  apply Htop. cbn [store vectors]. apply in_or_app. right. left. exact Hemb.
Qed.

End Results.

Lemma search_results_shape_witness :
  exists hits,
    fst (search seq_dot seq_norm length_hash one_record "go" 3) = Some hits /\
    length hits = 1%nat.
Proof.
  destruct (search_results_shape seq_dot seq_norm length_hash one_record "go" 3)
    as (hits & Hsearch & Hlen & _).
  - apply store_well_formed. split; [constructor|reflexivity].
  - lia.
  - exists hits. split; [exact Hsearch|exact Hlen].
Defined.

(** A store whose file held one vector of two components. *)
Definition foreign_store : t :=
  init (Holds {| doc_vectors := Some [[1%float; 0%float]]; doc_metadata := Some [∅] |}).

Lemma search_raises_on_other_size_witness :
  fst (search seq_dot seq_norm length_hash foreign_store "rust" 5) = None.
Proof.
  apply (search_raises_on_other_size seq_dot seq_norm length_hash foreign_store "rust" 5).
  constructor. cbn. lia.
Defined.

Lemma search_ignores_case_witness :
  exists first rest,
    fst (search seq_dot seq_norm length_hash
           (store seq_norm length_hash (init Missing) "Rust" ∅) "RUST" 5)
    = Some (first :: rest) /\
    PrimFloat.leb
      (cosine_value seq_dot seq_norm (_simple_embedding seq_norm length_hash "RUST")
                    (_simple_embedding seq_norm length_hash "RUST"))
      (similarity_score first) = true.
Proof.
  apply (search_ignores_case seq_dot seq_norm length_hash (init Missing) "Rust" "RUST" ∅ 5).
  - split; [constructor|reflexivity].
  - reflexivity.
  - lia.
  - vm_compute. reflexivity.
Defined.

(** *** The stored record, the whole life of a store *)

Section Life.
Variable np_dot : vector -> vector -> PrimFloat.float.
Variable np_norm : vector -> PrimFloat.float.
Variable hash : string -> Z.

(** X23: the record that [store] appends. It holds the caller's metadata,
    and the keys [text] and [embedding_dim] only where the caller's metadata
    has no such key: a [text] key of the caller replaces the stored text. *)
Theorem stored_record_keys (text : string) (meta : Meta) (key : string) :
  stored_record np_norm hash text meta !! key
  = match meta !! key with
    | Some v => Some v
    | None =>
        if String.eqb key "text" then Some (VStr text)
        else if String.eqb key "embedding_dim" then Some (VInt 128)
        else None
    end.
Proof.
  unfold stored_record. rewrite lookup_union, _simple_embedding_length.
  destruct (meta !! key) as [v|]; [by destruct (_ !! key)|].
  rewrite (left_id None _).
  destruct (String.eqb_spec key "text") as [->|Htext]; [by rewrite lookup_insert_eq|].
  rewrite lookup_insert_ne by done.
  destruct (String.eqb_spec key "embedding_dim") as [->|Hdim];
    [by rewrite lookup_insert_eq|].
  by rewrite lookup_insert_ne, lookup_empty.
Qed.

Lemma step_sound s o : sound s -> sound (step np_dot np_norm hash s o).
Proof.
  destruct s as [vm file]. intros [Hvm Hfile]. cbn [fst snd] in Hvm, Hfile.
  destruct o as [text meta outcome|query top_k|]; cbn [step].
  - pose proof (store_well_formed np_norm hash vm text meta Hvm) as Hstore.
    destruct outcome; split; cbn [fst snd]; try exact Hstore; try exact Hfile;
      exact I.
  - rewrite search_keeps_store. by split.
  - split; [|exact Hfile]. cbn [fst]. by destruct file.
Qed.

Lemma run_sound ops : forall s, sound s -> sound (run np_dot np_norm hash s ops).
Proof.
  unfold run. induction ops as [|o ops IH]; intros s Hs; cbn; [exact Hs|].
  by apply IH, step_sound.
Qed.

(** X24: the whole life of a store. From a store on a missing file, or
    from any store and file whose vectors all have 128 components and their
    metadata, after any sequence of stores (whether the writes succeed or
    fail), searches and loads: every stored vector has 128 components, a
    search raises for no query and no [top_k], and [get_stats] reports the
    dimension 128, or 0 while the store is empty. *)
Theorem store_life (s : t * File) (ops : list op)
    (query : string) (top_k : Z) (file_size : option nat) :
  sound s ->
  let vm := (run np_dot np_norm hash s ops).1 in
  Forall (fun v : vector => length v = 128%nat) (vectors vm) /\
  (exists hits, fst (search np_dot np_norm hash vm query top_k) = Some hits) /\
  embedding_dimension (get_stats vm file_size)
  = match vectors vm with [] => 0%nat | _ :: _ => 128%nat end /\
  total_vectors (get_stats vm file_size) = length (metadata vm).
Proof.
  intros Hs. cbv zeta. destruct (run_sound ops s Hs) as [[Hvs Hlen] _].
  split; [exact Hvs|]. split; [|split].
  - eexists. by apply search_total.
  - cbn. destruct (vectors (run np_dot np_norm hash s ops).1) as [|v vs]; [reflexivity|].
    by apply Forall_cons in Hvs as [Hv _].
  - cbn. by rewrite Hlen.
Qed.

End Life.

Lemma store_life_witness :
  exists hits,
    fst (search seq_dot seq_norm length_hash
           (run seq_dot seq_norm length_hash (init Missing, Missing)
              [Store "rust" ∅ Saved; Store "go" ∅ FailedDamaged; Load;
               Store "c" ∅ Saved]).1
           "rust" (-1))
    = Some hits.
Proof.
  apply (store_life seq_dot seq_norm length_hash (init Missing, Missing)
           [Store "rust" ∅ Saved; Store "go" ∅ FailedDamaged; Load; Store "c" ∅ Saved]
           "rust" (-1) None).
  split; [split; [constructor|reflexivity]|exact I].
Defined.

End VectorMemory.


(** ** Configuration: [agents/config.py] *)

Module Config.

Inductive LLMProvider :=
| GROQ
| OPENAI
| NONE.

(** [os.environ]: the variables that are set. *)
Abbreviation Env := (gmap string string).

(** [bool(os.environ.get(name))] *)
Definition is_set (env : Env) (name : string) : bool :=
  match env !! name with
  | Some v => truthy v
  | None => false
  end.

Definition _get_llm_provider (env : Env) : LLMProvider :=
  let provider := VectorMemory.lower (get (env !! "LLM_PROVIDER") "") in
  if String.eqb provider "groq" then GROQ
  else if String.eqb provider "openai" then OPENAI
  else if String.eqb provider "none" then NONE
  else if is_set env "GROQ_API_KEY" then GROQ
  else if is_set env "OPENAI_API_KEY" then OPENAI
  else NONE.

(** The object that [AgentConfig()] builds. *)
Record t := mkConfig {
  llm_provider : LLMProvider;
  groq_api_key : option string;
  openai_api_key : option string;
  groq_model : string;
  openai_model : string;
  enable_llm_summarization : bool;
  enable_llm_writing : bool;
  enable_pdf_export : bool;
  enable_visualizations : bool;
  enable_credibility_scoring : bool
}.

(** [_check_llm_available], on the fields set before it is called. *)
Definition _check_llm_available (provider : LLMProvider)
    (groq_api_key openai_api_key : option string) : bool :=
  match provider with
  | GROQ => match groq_api_key with Some k => truthy k | None => false end
  | OPENAI => match openai_api_key with Some k => truthy k | None => false end
  | NONE => false
  end.

(** [__init__] *)
Definition init (env : Env) : t :=
  let provider := _get_llm_provider env in
  let groq := env !! "GROQ_API_KEY" in
  let openai := env !! "OPENAI_API_KEY" in
  {| llm_provider := provider;
     groq_api_key := groq;
     openai_api_key := openai;
     groq_model := get (env !! "GROQ_MODEL") "llama-3.3-70b-versatile";
     openai_model := get (env !! "OPENAI_MODEL") "gpt-4";
     enable_llm_summarization := _check_llm_available provider groq openai;
     enable_llm_writing := _check_llm_available provider groq openai;
     enable_pdf_export := true;
     enable_visualizations := true;
     enable_credibility_scoring := true |}.

Section Clients.
(** The constructors [ChatGroq] and [ChatOpenAI], on the model name and the
    key: [None] when the import or the constructor raises. *)
Variable ChatGroq : string -> option string -> option Summarizer.LLMClient.
Variable ChatOpenAI : string -> option string -> option Summarizer.LLMClient.

(** [get_llm_client]: an exception of a constructor is caught and gives
    [None]. *)
Definition get_llm_client (config : t) : option Summarizer.LLMClient :=
  if negb (enable_llm_summarization config) then None
  else match llm_provider config with
       | GROQ => ChatGroq (groq_model config) (groq_api_key config)
       | OPENAI => ChatOpenAI (openai_model config) (openai_api_key config)
       | NONE => None
       end.

(** The configuration as [SummarizerAgent.__init__] reads it. *)
Definition for_summarizer (config : t) : Summarizer.Config :=
  {| Summarizer.enable_llm_summarization := enable_llm_summarization config;
     Summarizer.get_llm_client := get_llm_client config |}.

End Clients.

(** *** Which provider, and whether the model is used *)

Lemma lower_none : VectorMemory.lower "NONE" = "none".
Proof. reflexivity. Qed.

(** With no key set the model is off and there is no client. *)
Lemma no_key_off (env : Env)
    (ChatGroq ChatOpenAI : string -> option string -> option Summarizer.LLMClient) :
  is_set env "GROQ_API_KEY" = false -> is_set env "OPENAI_API_KEY" = false ->
  enable_llm_summarization (init env) = false /\
  get_llm_client ChatGroq ChatOpenAI (init env) = None.
Proof.
  unfold init, _get_llm_provider, get_llm_client.
  cbn [enable_llm_summarization llm_provider groq_api_key openai_api_key
       groq_model openai_model].
  fold (is_set env "GROQ_API_KEY"). fold (is_set env "OPENAI_API_KEY").
  change (match env !! "GROQ_API_KEY" with Some k => truthy k | None => false end)
    with (is_set env "GROQ_API_KEY").
  change (match env !! "OPENAI_API_KEY" with Some k => truthy k | None => false end)
    with (is_set env "OPENAI_API_KEY").
  intros Hg Ho.
  assert (Hoff : _check_llm_available
            (if (VectorMemory.lower (get (env !! "LLM_PROVIDER") "") =? "groq")%string
             then GROQ
             else if (VectorMemory.lower (get (env !! "LLM_PROVIDER") "")
                      =? "openai")%string
             then OPENAI
             else if (VectorMemory.lower (get (env !! "LLM_PROVIDER") "")
                      =? "none")%string
             then NONE
             else if is_set env "GROQ_API_KEY" then GROQ
             else if is_set env "OPENAI_API_KEY" then OPENAI else NONE)
            (env !! "GROQ_API_KEY") (env !! "OPENAI_API_KEY") = false).
  { rewrite Hg, Ho.
    destruct (String.eqb _ "groq"); [exact Hg|].
    destruct (String.eqb _ "openai"); [exact Ho|].
    by destruct (String.eqb _ "none"). }
  by rewrite Hoff.
Qed.


(** X25: the choice of the provider. An [LLM_PROVIDER] of groq, openai or
    none, in any case of letters, decides alone: "none" turns the language
    model off even when both keys are set, and a provider named without its
    own key is off even when the other key is set. With [LLM_PROVIDER] unset
    the Groq key, when set and not empty, wins over the OpenAI key. With no key
    set the model is off and [get_llm_client] returns nothing, whatever
    [LLM_PROVIDER] says. *)
Theorem provider_choice (env : Env)
    (ChatGroq ChatOpenAI : string -> option string -> option Summarizer.LLMClient) :
  (VectorMemory.lower (get (env !! "LLM_PROVIDER") "") = "none" ->
   enable_llm_summarization (init env) = false) /\
  (VectorMemory.lower (get (env !! "LLM_PROVIDER") "") = "openai" ->
   is_set env "OPENAI_API_KEY" = false ->
   enable_llm_summarization (init env) = false) /\
  (VectorMemory.lower (get (env !! "LLM_PROVIDER") "") = "groq" ->
   is_set env "GROQ_API_KEY" = false ->
   enable_llm_summarization (init env) = false) /\
  (env !! "LLM_PROVIDER" = None -> is_set env "GROQ_API_KEY" = true ->
   llm_provider (init env) = GROQ /\ enable_llm_summarization (init env) = true) /\
  (is_set env "GROQ_API_KEY" = false -> is_set env "OPENAI_API_KEY" = false ->
   enable_llm_summarization (init env) = false /\
   get_llm_client ChatGroq ChatOpenAI (init env) = None).
Proof.
  split; [|split; [|split; [|split; [|exact (no_key_off env ChatGroq ChatOpenAI)]]]].
  all: unfold init, _get_llm_provider.
  all: cbn [enable_llm_summarization llm_provider groq_api_key openai_api_key
            groq_model openai_model].
  all: change (match env !! "GROQ_API_KEY" with Some k => truthy k | None => false end)
         with (is_set env "GROQ_API_KEY").
  all: change (match env !! "OPENAI_API_KEY" with Some k => truthy k | None => false end)
         with (is_set env "OPENAI_API_KEY").
  - intros ->. reflexivity.
  - intros -> Hkey. cbn [String.eqb Ascii.eqb Bool.eqb]. cbn. exact Hkey.
  - intros -> Hkey. cbn. exact Hkey.
  - intros -> Hkey. cbn. by rewrite Hkey.
Qed.

(** An environment with both keys and the model turned off by name. *)
Example provider_none_wins :
  enable_llm_summarization
    (init (<["LLM_PROVIDER" := "None"]>
             (<["GROQ_API_KEY" := "gsk"]> (<["OPENAI_API_KEY" := "sk"]> ∅))))
  = false.
Proof. vm_compute. reflexivity. Qed.

(** X26: no key, no model. When neither API key is set (or both are
    empty), a [SummarizerAgent] built on the configuration has no client,
    whatever its [use_llm] flag and whatever [LLM_PROVIDER] says, and
    [summarize] returns the heuristic summary of its input. *)
Theorem no_key_heuristic_summaries (env : Env)
    (ChatGroq ChatOpenAI : string -> option string -> option Summarizer.LLMClient)
    (json_loads : string -> option value) (use_llm : bool)
    (kg : option KnowledgeGraph.t) (search_results : list (list SearchResult))
    (now1 now2 : string) :
  is_set env "GROQ_API_KEY" = false -> is_set env "OPENAI_API_KEY" = false ->
  let agent :=
    Summarizer.init use_llm (Some (for_summarizer ChatGroq ChatOpenAI (init env))) in
  Summarizer.llm_client agent = None /\
  fst (Summarizer.summarize json_loads agent kg search_results now1 now2)
  = Some (Summarizer._synthesize_information search_results).
Proof.
  intros Hg Ho. cbv zeta.
  destruct (no_key_off env ChatGroq ChatOpenAI Hg Ho) as [Hen Hclient].
  assert (Hnone : Summarizer.llm_client
            (Summarizer.init use_llm
               (Some (for_summarizer ChatGroq ChatOpenAI (init env)))) = None).
  { unfold Summarizer.init, for_summarizer. cbn [Summarizer.llm_client].
    cbn [Summarizer.enable_llm_summarization]. rewrite Hen.
    by destruct use_llm. }
  split; [exact Hnone|].
  unfold Summarizer.summarize. rewrite Hnone.
  destruct (Summarizer._synthesize_information_fields search_results) as (Hf & _).
  unfold Summarizer.count_findings. by rewrite Hf.
Qed.

Lemma no_key_heuristic_summaries_witness :
  fst (Summarizer.summarize Summarizer.sample_json_loads
         (Summarizer.init true
            (Some (for_summarizer (fun _ _ => Some Summarizer.object_client)
                                  (fun _ _ => Some Summarizer.object_client)
                                  (init (<["LLM_PROVIDER" := "groq"]> ∅)))))
         None [[Summarizer.hit 1 "A" "http://a"]] "t1" "t2")
  = Some (Summarizer._synthesize_information [[Summarizer.hit 1 "A" "http://a"]]).
Proof.
  apply (no_key_heuristic_summaries (<["LLM_PROVIDER" := "groq"]> ∅)
           (fun _ _ => Some Summarizer.object_client)
           (fun _ _ => Some Summarizer.object_client)
           Summarizer.sample_json_loads true None
           [[Summarizer.hit 1 "A" "http://a"]] "t1" "t2"); reflexivity.
Defined.

End Config.


(** ** The orchestrator: [main.py]

    [datetime.now()] is read many times in a row: the clock is a function
    from the number of readings made so far to the reading. *)

Module Orchestrator.

(** [subtask.get("type") == "search"] and the loop of [_execute_searches]:
    the state is the knowledge graph of the search agent and the number of
    clock readings made. *)
Fixpoint _execute_searches (ddgs_text : string -> Z -> list Search.ProviderRecord)
    (clock : nat -> string) (kg : option KnowledgeGraph.t) (tick : nat)
    (subtasks : list Planner.Subtask)
  : list (list SearchResult) * (option KnowledgeGraph.t * nat) :=
  match subtasks with
  | [] => ([], (kg, tick))
  | subtask :: rest =>
      if String.eqb (Planner.subtask_type subtask) "search" then
        let query := get (Planner.subtask_query subtask) "" in
        let '(results, kg1) :=
          Search.search ddgs_text kg query None (clock tick) (clock (S tick)) in
        let '(search_results, state) :=
          _execute_searches ddgs_text clock kg1 (S (S tick)) rest in
        (results :: search_results, state)
      else _execute_searches ddgs_text clock kg tick rest
  end.

(** [str.isalnum] on one character. *)
Definition isalnum (c : ascii) : bool :=
  let n := nat_of_ascii c in
  ((48 <=? n) && (n <=? 57) || (65 <=? n) && (n <=? 90) || (97 <=? n) && (n <=? 122)
   || (n =? 170) || (n =? 178) || (n =? 179) || (n =? 181) || (n =? 185) || (n =? 186)
   || (188 <=? n) && (n <=? 190) || (192 <=? n) && (n <=? 214)
   || (216 <=? n) && (n <=? 246) || (248 <=? n) && (n <=? 255))%nat.

Fixpoint map_chars (f : ascii -> ascii) (s : string) : string :=
  match s with
  | EmptyString => EmptyString
  | String c rest => String (f c) (map_chars f rest)
  end.

(** ["".join(c if c.isalnum() else "_" for c in query)[:50]] *)
Definition safe_query (query : string) : string :=
  Str.take 50 (map_chars (fun c => if isalnum c then c else "_"%char) query).

(** The path that [_save_report] (and [save_report] of the web
    application) writes to: [timestamp] is the [strftime] reading. *)
Definition report_path (query timestamp : string) : string :=
  "storage/reports" +:+ "/"
    +:+ ("report_" +:+ safe_query query +:+ "_" +:+ timestamp +:+ ".md").

(** The path of [export_report_to_pdf] in [utils/pdf_export.py]. *)
Definition pdf_path (query timestamp output_dir : string) : string :=
  output_dir +:+ "/"
    +:+ ("report_" +:+ safe_query query +:+ "_" +:+ timestamp +:+ ".pdf").

(** *** The searches of a plan *)

(** X27: the searches of a plan. For the plan of a query,
    [_execute_searches] runs three searches, in order: the query, "recent
    trends" before it, "expert analysis" before it, each at the default cap
    of 5; the summarize and write subtasks start no search; the knowledge
    graph receives six entries, a [search_started] and a [search_completed]
    for each search. *)
Theorem plan_searches
    (ddgs_text : string -> Z -> list Search.ProviderRecord)
    (clock : nat -> string) (kg kg_plan : KnowledgeGraph.t) (tick : nat)
    (query plan1 plan2 : string) :
  let subtasks := fst (Planner.plan (Some kg_plan) query plan1 plan2) in
  let out := _execute_searches ddgs_text clock (Some kg) tick subtasks in
  fst out
  = [ Search._execute_search ddgs_text query 5;
      Search._execute_search ddgs_text ("recent trends " +:+ query) 5;
      Search._execute_search ddgs_text ("expert analysis " +:+ query) 5 ] /\
  snd (snd out) = (tick + 6)%nat /\
  exists kg',
    fst (snd out) = Some kg' /\
    map (fun e => (KnowledgeGraph.entry_agent e, KnowledgeGraph.entry_action e,
                   KnowledgeGraph.entry_timestamp e))
        (KnowledgeGraph.actions (KnowledgeGraph.graph kg'))
    = map (fun e => (KnowledgeGraph.entry_agent e, KnowledgeGraph.entry_action e,
                     KnowledgeGraph.entry_timestamp e))
          (KnowledgeGraph.actions (KnowledgeGraph.graph kg))
      ++ [ ("SearchAgent", "search_started", clock tick);
           ("SearchAgent", "search_completed", clock (tick + 1)%nat);
           ("SearchAgent", "search_started", clock (tick + 2)%nat);
           ("SearchAgent", "search_completed", clock (tick + 3)%nat);
           ("SearchAgent", "search_started", clock (tick + 4)%nat);
           ("SearchAgent", "search_completed", clock (tick + 5)%nat) ].
Proof.
  cbv zeta. cbn [Planner.plan fst Planner._decompose_query _execute_searches
                 Planner.subtask_type Planner.subtask_query get String.eqb].
  cbn. split; [reflexivity|]. split; [f_equal; lia|].
  eexists. split; [reflexivity|]. cbn.
  rewrite !map_app. cbn. rewrite <- !app_assoc. cbn.
  replace (tick + 1)%nat with (S tick) by lia.
  replace (tick + 2)%nat with (S (S tick)) by lia.
  replace (tick + 3)%nat with (S (S (S tick))) by lia.
  replace (tick + 4)%nat with (S (S (S (S tick)))) by lia.
  replace (tick + 5)%nat with (S (S (S (S (S tick))))) by lia.
  reflexivity.
Qed.

(** *** The name of the report *)

Lemma map_chars_length f s : String.length (map_chars f s) = String.length s.
Proof. induction s as [|c s IH]; cbn; [reflexivity|by rewrite IH]. Qed.

Lemma map_chars_get f s i :
  String.get i (map_chars f s) = f <$> String.get i s.
Proof.
  revert i. induction s as [|c s IH]; intros [|i]; cbn; try reflexivity. apply IH.
Qed.

Lemma take_get n s i :
  (i < n)%nat -> String.get i (Str.take n s) = String.get i s.
Proof.
  unfold Str.take. revert s i. induction n as [|n IH]; intros [|c s] [|i] Hi;
    cbn; try reflexivity; try lia.
  apply IH. lia.
Qed.

Lemma take_get_beyond n s i :
  (n <= i)%nat -> String.get i (Str.take n s) = None.
Proof.
  unfold Str.take. revert s i. induction n as [|n IH]; intros [|c s] [|i] Hi;
    cbn; try reflexivity; try lia.
  apply IH. lia.
Qed.

(** X28: the name of the report. The part of the file name made from the
    query has the length of the query, 50 at most; at each position it has
    the character of the query when that one is a letter or a digit, and an
    underscore otherwise; so it holds no slash, no dot and no space. *)
Theorem safe_query_chars (query : string) :
  String.length (safe_query query) = Nat.min 50 (String.length query) /\
  (forall i, (i < 50)%nat ->
     String.get i (safe_query query)
     = (fun c => if isalnum c then c else "_"%char) <$> String.get i query) /\
  (forall i c, String.get i (safe_query query) = Some c ->
     isalnum c = true \/ c = "_"%char) /\
  (forall i, String.get i (safe_query query) <> Some "/"%char /\
             String.get i (safe_query query) <> Some "."%char /\
             String.get i (safe_query query) <> Some " "%char).
Proof.
  assert (Hget : forall i, (i < 50)%nat ->
     String.get i (safe_query query)
     = (fun c => if isalnum c then c else "_"%char) <$> String.get i query).
  { intros i Hi. unfold safe_query. by rewrite take_get, map_chars_get. }
  assert (Hchar : forall i c, String.get i (safe_query query) = Some c ->
     isalnum c = true \/ c = "_"%char).
  { intros i c Hc. destruct (decide (i < 50)%nat) as [Hi|Hi].
    - rewrite Hget in Hc by exact Hi.
      destruct (String.get i query) as [d|]; [|discriminate]. cbn in Hc.
      injection Hc as <-. destruct (isalnum d) eqn:Hd; auto.
    - unfold safe_query in Hc. rewrite take_get_beyond in Hc by lia. discriminate. }
  split; [|split; [exact Hget|split; [exact Hchar|]]].
  - unfold safe_query. by rewrite Str.take_length, map_chars_length.
  - intros i. repeat split; intros Hc; apply Hchar in Hc as [Hc|Hc]; discriminate.
Qed.

(** The query "AI/ML: what's next?" at 20240101_120000. *)
Example report_path_example :
  report_path "AI/ML: what's next?" "20240101_120000"
  = "storage/reports/report_AI_ML__what_s_next__20240101_120000.md".
Proof. reflexivity. Qed.

(** *** [_update_memory]

    The summary is the dict [summarize] returned. The file of the store is
    left out: [_save] catches what it raises, so it has no part in what the
    call does to the store in memory or in whether the call returns. *)

(** A finding the heuristic built, as the dict it is. *)
Definition finding_value (f : Summarizer.KeyFinding) : value :=
  VDict [("point", VStr (Summarizer.finding_point f));
         ("source", VStr (Summarizer.finding_source f));
         ("url", VStr (Summarizer.finding_url f))].

(** [summary.get("key_findings", [])[:5]] as the loop goes through it:
    [None] when the slice raises (a dict cannot be sliced; a number, a
    boolean or [None] neither). The slice of a string is a string, whose
    items are its characters. *)
Definition findings_slice (summary : Summarizer.Summary) : option (list value) :=
  match Summarizer.key_findings summary with
  | Summarizer.Extracted l => Some (map finding_value (slice_to l 5))
  | Summarizer.FromModel (VList l) => Some (slice_to l 5)
  | Summarizer.FromModel (VStr s) =>
      Some (map (fun c => VStr (String c "")) (slice_to (String.list_ascii_of_string s) 5))
  | Summarizer.FromModel _ => None
  end.

Definition query_metadata (summary : Summarizer.Summary) (count : nat) (now : string)
  : VectorMemory.Meta :=
  {[ "type" := VStr "research_query";
     "timestamp" := VStr now;
     "key_findings_count" := VInt (Z.of_nat count);
     "source_count" := VInt (Z.of_nat (Summarizer.source_count summary)) ]}.

Definition finding_metadata (query : string) (source : value) (now : string)
  : VectorMemory.Meta :=
  {[ "type" := VStr "key_finding";
     "query" := VStr query;
     "source" := source;
     "timestamp" := VStr now ]}.

Section Memory.
Variable np_norm : VectorMemory.vector -> PrimFloat.float.
Variable hash : string -> Z.
Variable clock : nat -> string.

(** The body of the loop: [None] when it raises, which it does before the
    store is touched ([finding.get] on what is no dict, [text.lower()] in
    [_simple_embedding] on what is no string). *)
Definition store_finding (vm : VectorMemory.t) (query : string) (finding : value)
    (now : string) : option VectorMemory.t :=
  point ← Summarizer.dict_get finding "point" (VStr "");
  source ← Summarizer.dict_get finding "source" (VStr "Unknown");
  match point with
  | VStr text => Some (VectorMemory.store np_norm hash vm text (finding_metadata query source now))
  | _ => None
  end.

(** The loop; the boolean tells whether it came to its end. *)
Fixpoint store_findings (vm : VectorMemory.t) (query : string) (tick : nat)
    (findings : list value) : bool * VectorMemory.t :=
  match findings with
  | [] => (true, vm)
  | finding :: rest =>
      match store_finding vm query finding (clock tick) with
      | Some vm1 => store_findings vm1 query (S tick) rest
      | None => (false, vm)
      end
  end.

(** [_update_memory]: whether the call returns, and the store it leaves. *)
Definition _update_memory (vm : VectorMemory.t) (query : string)
    (summary : Summarizer.Summary) : bool * VectorMemory.t :=
  match Summarizer.count_findings summary with
  | None => (false, vm)
  | Some count =>
      let vm1 := VectorMemory.store np_norm hash vm query (query_metadata summary count (clock 0)) in
      match findings_slice summary with
      | Some findings => store_findings vm1 query 1 findings
      | None => (false, vm1)
      end
  end.

Lemma store_finding_grows vm query finding now vm1 :
  store_finding vm query finding now = Some vm1 ->
  exists text meta, vm1 = VectorMemory.store np_norm hash vm text meta.
Proof.
  unfold store_finding. intros H.
  destruct (Summarizer.dict_get finding "point" _) as [point|]; [|discriminate].
  destruct (Summarizer.dict_get finding "source" _) as [source|]; [|discriminate].
  cbn in H. destruct point; try discriminate. injection H as <-. eauto.
Qed.

Lemma store_findings_grows findings : forall vm query tick,
  let out := store_findings vm query tick findings in
  exists vs ms,
    VectorMemory.vectors out.2 = VectorMemory.vectors vm ++ vs /\
    VectorMemory.metadata out.2 = VectorMemory.metadata vm ++ ms /\
    length vs = length ms /\
    (length vs <= length findings)%nat /\
    (out.1 = true -> length vs = length findings).
Proof.
  induction findings as [|finding rest IH]; intros vm query tick; cbn.
  { exists [], []. by rewrite !app_nil_r. }
  destruct (store_finding vm query finding (clock tick)) as [vm1|] eqn:Hone.
  - apply store_finding_grows in Hone as (text & meta & ->).
    destruct (IH (VectorMemory.store np_norm hash vm text meta) query (S tick))
      as (vs & ms & Hv & Hm & Hlen & Hle & Hall).
    eexists (_ :: vs), (_ :: ms).
    rewrite Hv, Hm. cbn [VectorMemory.store VectorMemory.vectors VectorMemory.metadata].
    rewrite <- !app_assoc. cbn.
    split; [reflexivity|]. split; [reflexivity|].
    split; [by rewrite Hlen|]. split; [lia|]. intros Ht. by rewrite (Hall Ht).
  - exists [], []. rewrite !app_nil_r. cbn. repeat split; try lia; discriminate.
Qed.

Lemma findings_slice_length summary findings :
  findings_slice summary = Some findings -> (length findings <= 5)%nat.
Proof.
  unfold findings_slice.
  destruct (Summarizer.key_findings summary) as [l|[]]; intros H; try discriminate;
    injection H as <-; change (slice_to ?x 5) with (firstn 5 x);
    rewrite ?length_map, length_firstn; lia.
Qed.

(** X29: what [_update_memory] does to the store. Whatever the summary
    holds, and whether the call returns or raises, the records the store
    held stay in place and in order; at most six are added, as many vectors
    as metadata dicts. When the findings have no length nothing is added;
    otherwise the first record added is that of the query, with its four
    metadata keys, and it stays when a later finding makes the call
    raise. *)
Theorem _update_memory_appends (vm : VectorMemory.t) (query : string)
    (summary : Summarizer.Summary) :
  let out := _update_memory vm query summary in
  exists vs ms,
    VectorMemory.vectors out.2 = VectorMemory.vectors vm ++ vs /\
    VectorMemory.metadata out.2 = VectorMemory.metadata vm ++ ms /\
    length vs = length ms /\
    (length vs <= 6)%nat /\
    match Summarizer.count_findings summary with
    | None => out.1 = false /\ vs = []
    | Some count =>
        exists rest,
          ms = VectorMemory.stored_record np_norm hash query
                 (query_metadata summary count (clock 0)) :: rest
    end.
Proof.
  cbv zeta. unfold _update_memory.
  destruct (Summarizer.count_findings summary) as [count|].
  2:{ exists [], []. rewrite !app_nil_r. cbn. repeat split; lia. }
  destruct (findings_slice summary) as [findings|] eqn:Hslice.
  - pose proof (findings_slice_length _ _ Hslice) as Hfive.
    destruct (store_findings_grows findings
                (VectorMemory.store np_norm hash vm query (query_metadata summary count (clock 0)))
                query 1) as (vs & ms & Hv & Hm & Hlen & Hle & _).
    eexists (_ :: vs), (_ :: ms). rewrite Hv, Hm.
    cbn [VectorMemory.store VectorMemory.vectors VectorMemory.metadata].
    rewrite <- !app_assoc. cbn.
    split; [reflexivity|]. split; [reflexivity|].
    split; [by rewrite Hlen|]. split; [lia|]. by eexists.
  - eexists [_], [_]. cbn. split; [reflexivity|]. split; [reflexivity|].
    split; [reflexivity|]. split; [lia|]. by eexists.
Qed.

Lemma store_findings_extracted (l : list Summarizer.KeyFinding) : forall vm query tick,
  store_findings vm query tick (map finding_value l)
  = (true,
     {| VectorMemory.vectors :=
          VectorMemory.vectors vm
          ++ map (fun f => VectorMemory._simple_embedding np_norm hash (Summarizer.finding_point f)) l;
        VectorMemory.metadata :=
          VectorMemory.metadata vm
          ++ map (fun '(i, f) =>
                    VectorMemory.stored_record np_norm hash (Summarizer.finding_point f)
                      (finding_metadata query (VStr (Summarizer.finding_source f)) (clock i)))
                 (enumerate_from tick l) |}).
Proof.
  induction l as [|f l IH]; intros vm query tick.
  { cbn. rewrite !app_nil_r. by destruct vm. }
  cbn [map store_findings]. unfold store_finding, finding_value.
  cbn [Summarizer.dict_get List.find fst snd String.eqb Ascii.eqb Bool.eqb mbind option_bind].
  rewrite IH. cbn [VectorMemory.store VectorMemory.vectors VectorMemory.metadata
                   enumerate_from map].
  by rewrite <- !app_assoc.
Qed.

Lemma enumerate_from_map {A B} (f : A -> B) (l : list A) : forall i,
  enumerate_from i (map f l) = map (fun '(j, x) => (j, f x)) (enumerate_from i l).
Proof. induction l as [|x l IH]; intros i; cbn; [reflexivity|by rewrite IH]. Qed.

(** X30: the memory of a heuristic summary. For the summary the heuristic
    makes of any search results, [_update_memory] returns; it stores the
    query, then the points of the first five findings (those of the first
    five flattened results), in order, each with the title of its result as
    source and the query; the query's record counts all the findings, ten at
    most, and all the flattened results. *)
Theorem _update_memory_heuristic (vm : VectorMemory.t) (query : string)
    (search_results : list (list SearchResult)) :
  let all := Summarizer.flatten search_results in
  let summary := Summarizer._synthesize_information search_results in
  let out := _update_memory vm query summary in
  out.1 = true /\
  VectorMemory.vectors out.2
  = VectorMemory.vectors vm
    ++ map (VectorMemory._simple_embedding np_norm hash)
           (query :: map (fun r => Str.take 200 (get (result_snippet r) "")) (firstn 5 all)) /\
  VectorMemory.metadata out.2
  = VectorMemory.metadata vm
    ++ VectorMemory.stored_record np_norm hash query
         {[ "type" := VStr "research_query";
            "timestamp" := VStr (clock 0);
            "key_findings_count" := VInt (Z.of_nat (Nat.min (length all) 10));
            "source_count" := VInt (Z.of_nat (length all)) ]}
       :: map (fun '(i, r) =>
                 VectorMemory.stored_record np_norm hash (Str.take 200 (get (result_snippet r) ""))
                   {[ "type" := VStr "key_finding";
                      "query" := VStr query;
                      "source" := VStr (get (result_title r) "Unknown");
                      "timestamp" := VStr (clock i) ]})
              (enumerate_from 1 (firstn 5 all)) /\
  length (VectorMemory.vectors out.2)
  = (length (VectorMemory.vectors vm) + 1 + Nat.min 5 (length all))%nat.
Proof.
  cbv zeta.
  destruct (Summarizer._synthesize_information_fields search_results)
    as (Hf & _ & Hc & _).
  cbv zeta in Hf, Hc.
  set (all := Summarizer.flatten search_results) in *.
  set (summary := Summarizer._synthesize_information search_results) in *.
  assert (Hout : _update_memory vm query summary
    = store_findings
        (VectorMemory.store np_norm hash vm query
           (query_metadata summary (Nat.min (length all) 10) (clock 0)))
        query 1 (map finding_value (map Summarizer.key_finding (firstn 5 all)))).
  { unfold _update_memory, Summarizer.count_findings, findings_slice. rewrite Hf.
    change (slice_to ?x 5) with (firstn 5 x).
    rewrite length_map, length_firstn, (Nat.min_comm 10).
    rewrite !firstn_map, firstn_firstn. reflexivity. }
  rewrite Hout, store_findings_extracted.
  cbn [fst snd VectorMemory.store VectorMemory.vectors VectorMemory.metadata].
  unfold query_metadata, finding_metadata. rewrite Hc.
  rewrite <- !app_assoc. cbn [app map].
  split; [reflexivity|]. split.
  { f_equal. f_equal. rewrite !map_map. reflexivity. }
  split.
  { f_equal. f_equal. rewrite enumerate_from_map, map_map.
    apply map_ext. by intros [i r]. }
  rewrite length_app. cbn [length]. rewrite !length_map, length_firstn. lia.
Qed.

End Memory.

End Orchestrator.
